(** * CapeEco: schema, offset rules and presentation guards

    A shallow embedding of the parts of the CapeEco repository that the
    specification talks about:

    - [scripts/schema.sql]: the data-definition script, run as a small
      DDL interpreter over a catalog of relations, and the row-level
      constraint checks the resulting relations perform on insert;
    - [frontend/src/utils/constants.js]: the category, status and rating
      tables, as ordered association lists (JS objects keep insertion
      order for string keys);
    - [frontend/src/components/PropertySidebar.jsx] and
      [frontend/src/components/ReportView.jsx]: the status badge, the
      score bars and gauges and the guards that decide which rows of an
      analysis payload are rendered.

    Numbers that JavaScript and PostgreSQL hold as doubles are rationals
    here; every property below only compares them or bounds a quotient,
    so no statement depends on rounding. *)

From Stdlib Require Import QArith Qminmax Qround Lqa.
From stdpp Require Import base option list strings gmap pretty.

Local Open Scope string_scope.
Local Open Scope list_scope.

(** ** JavaScript values read from JSON payloads *)

Inductive js_value : Type :=
  | JUndefined
  | JNull
  | JBool (b : bool)
  | JNum (q : Q)
  | JStr (s : string).

(** [SameValueZero], the comparison [Array.prototype.includes] uses. *)
Definition same_value_zero (a b : js_value) : bool :=
  match a, b with
  | JUndefined, JUndefined => true
  | JNull, JNull => true
  | JBool x, JBool y => Bool.eqb x y
  | JNum x, JNum y => Qeq_bool x y
  | JStr x, JStr y => String.eqb x y
  | _, _ => false
  end.

Definition includes (arr : list js_value) (v : js_value) : bool :=
  existsb (fun a => same_value_zero a v) arr.



Definition truthy_str (x : option string) : bool :=
  match x with
  | Some s => negb (String.eqb s "")
  | None => false
  end.

(** ** [utils/constants.js] *)

Record cba_style := { fill : string; stroke : string; label : string }.

Definition CBA_COLORS : list (string * cba_style) :=
  [ ("PA",     {| fill := "#dc2626"; stroke := "#991b1b"; label := "Protected Area" |});
    ("CA",     {| fill := "#dc2626"; stroke := "#991b1b"; label := "Conservation Area" |});
    ("CBA 1a", {| fill := "#ef4444"; stroke := "#b91c1c"; label := "CBA 1a (Irreplaceable)" |});
    ("CBA 1b", {| fill := "#f97316"; stroke := "#c2410c"; label := "CBA 1b (Irreplaceable, low condition)" |});
    ("CBA 1c", {| fill := "#fb923c"; stroke := "#ea580c"; label := "CBA 1c (Connectivity)" |});
    ("CBA 2",  {| fill := "#f59e0b"; stroke := "#b45309"; label := "CBA 2 (Optimal)" |});
    ("ESA 1",  {| fill := "#eab308"; stroke := "#a16207"; label := "ESA 1 (Natural/Semi-natural)" |});
    ("ESA 2",  {| fill := "#facc15"; stroke := "#ca8a04"; label := "ESA 2 (Modified)" |});
    ("ONA",    {| fill := "#84cc16"; stroke := "#4d7c0f"; label := "Other Natural Area" |}) ].

Record badge_style := { color : string; text : string; badge_label : string }.

Definition BIO_STATUS : list (string * badge_style) :=
  [ ("no-go",       {| color := "bg-red-600";    text := "text-white";    badge_label := "No-Go" |});
    ("exceptional", {| color := "bg-orange-500"; text := "text-white";    badge_label := "Exceptional Only" |});
    ("offset",      {| color := "bg-amber-500";  text := "text-gray-900"; badge_label := "Offset Required" |});
    ("clear",       {| color := "bg-green-500";  text := "text-white";    badge_label := "No Constraints" |}) ].

Definition GREENSTAR_COLORS : list (string * string) :=
  [ ("6-star", "text-emerald-400");
    ("5-star", "text-green-400");
    ("4-star", "text-lime-400");
    ("3-star", "text-yellow-400");
    ("Below rated", "text-gray-400") ].

(** An object literal as the list of its own properties, in order.
    [js_get] is the own property of that name, if there is one, and
    [keys] is [Object.keys]. *)
Fixpoint js_get {A : Type} (obj : list (string * A)) (key : string) : option A :=
  match obj with
  | [] => None
  | (k, v) :: rest => if String.eqb k key then Some v else js_get rest key
  end.

Definition keys {A : Type} (obj : list (string * A)) : list string :=
  map fst obj.

(** The members an object literal inherits from [Object.prototype]:
    eleven methods and the accessor [__proto__]. *)
Definition Object_prototype_methods : list string :=
  [ "constructor"; "hasOwnProperty"; "isPrototypeOf"; "propertyIsEnumerable";
    "toLocaleString"; "toString"; "valueOf";
    "__defineGetter__"; "__defineSetter__"; "__lookupGetter__"; "__lookupSetter__" ].

Definition Object_prototype : list string :=
  Object_prototype_methods ++ [ "__proto__" ].

(** What property access [obj[key]] yields on an object literal: an own
    property, else a method of [Object.prototype], else (for
    [__proto__]) the prototype object itself, else [undefined].  The
    inherited values are truthy and have none of the members the
    components read ([fill], [stroke], [label], [active], ...). *)
Inductive js_member (A : Type) : Type :=
  | Own (v : A)
  | InheritedMethod (name : string)
  | PrototypeObject
  | Undefined.

Arguments Own {A} v.
Arguments InheritedMethod {A} name.
Arguments PrototypeObject {A}.
Arguments Undefined {A}.

Definition member_of (key : string) (names : list string) : bool :=
  existsb (String.eqb key) names.

Definition js_index {A : Type} (obj : list (string * A)) (key : string) : js_member A :=
  match js_get obj key with
  | Some v => Own v
  | None =>
    if member_of key Object_prototype_methods then InheritedMethod key
    else if String.eqb key "__proto__" then PrototypeObject
    else Undefined
  end.

(** ** [PropertySidebar.jsx]: the property payload and the status badge *)

Record bio_entry := {
  cba_category : js_value;
  entry_overlap_pct : option Q;
  vegetation_type : option string;
  threat_status : option string
}.

Record property_payload := {
  erf_number : option string;
  suburb : option string;
  area_sqm : option Q;
  inside_urban_edge : option bool;
  biodiversity : option (list bio_entry)
}.

(** The [bioStatus] closure; [property] is [None] while the component
    state is still [null]. *)
Definition bioStatus (property : option property_payload) : string :=
  match property with
  | None => "clear"
  | Some p =>
    match biodiversity p with
    | None => "clear"
    | Some [] => "clear"
    | Some (first :: _) =>
      let top := cba_category first in
      if includes [JStr "PA"; JStr "CA"; JStr "CBA 1a"] top then "no-go"
      else if includes [JStr "CBA 1b"; JStr "CBA 1c"] top then "exceptional"
      else if includes [JStr "CBA 2"; JStr "ESA 1"; JStr "ESA 2"] top then "offset"
      else "clear"
    end
  end.

(** [Badge]: [BIO_STATUS[status] || BIO_STATUS.clear]; every value
    but [undefined] is truthy here. *)
Definition Badge (status : string) : js_member badge_style :=
  match js_index BIO_STATUS status with
  | Undefined => js_index BIO_STATUS "clear"
  | s => s
  end.

(** [ScoreBar]: [Math.min((score / max) * 100, 100)]. *)
Definition ScoreBar_pct (score max : Q) : Q :=
  Qmin ((score / max) * 100) 100.

(** ** [ReportView.jsx] *)

(** [ScoreGauge]: [max > 0 ? Math.min((score / max) * 100, 100) : 0]. *)
Definition ScoreGauge_pct (score max : Q) : Q :=
  if Qlt_le_dec 0 max then Qmin ((score / max) * 100) 100 else 0.

Definition ScoreGauge_rating (pct : Q) : string :=
  if Qle_bool 80 pct then "Excellent"
  else if Qle_bool 60 pct then "Good"
  else if Qle_bool 40 pct then "Fair"
  else "Low".

(** ** Net-zero scorecard payload and its rendering *)

Record netzero_scores := {
  energy : Q;
  water : Q;
  ecology : Q;
  location : Q;
  materials_innovation : Q
}.

(** One rendered bar or gauge: label, score shown, category maximum. *)
Record score_widget := { sw_label : string; sw_score : Q; sw_max : Q }.

(** The five [<ScoreBar ... />] elements of the sidebar, in source order. *)
Definition sidebar_score_bars (scores : netzero_scores) : list score_widget :=
  [ {| sw_label := "Energy";    sw_score := energy scores;               sw_max := 35 |};
    {| sw_label := "Water";     sw_score := water scores;                sw_max := 25 |};
    {| sw_label := "Ecology";   sw_score := ecology scores;              sw_max := 20 |};
    {| sw_label := "Location";  sw_score := location scores;             sw_max := 10 |};
    {| sw_label := "Materials"; sw_score := materials_innovation scores; sw_max := 10 |} ].

(** The five [<ScoreGauge ... />] elements of the report, in source order. *)
Definition report_score_gauges (scores : netzero_scores) : list score_widget :=
  [ {| sw_label := "Energy";    sw_score := energy scores;               sw_max := 35 |};
    {| sw_label := "Water";     sw_score := water scores;                sw_max := 25 |};
    {| sw_label := "Ecology";   sw_score := ecology scores;              sw_max := 20 |};
    {| sw_label := "Location";  sw_score := location scores;             sw_max := 10 |};
    {| sw_label := "Materials"; sw_score := materials_innovation scores; sw_max := 10 |} ].

(** Denominator printed next to the total: [{netzero.total_score}/100]. *)
Definition total_score_out_of : Q := 100.

(** Rating colour: [GREENSTAR_COLORS[rating] || 'text-gray-400'].  For
    a name of [Object.prototype] the class attribute receives the text
    of the inherited value, not a colour class. *)
Definition rating_color (rating : string) : js_member string :=
  match js_index GREENSTAR_COLORS rating with
  | Own c => if String.eqb c "" then Own "text-gray-400" else Own c
  | Undefined => Own "text-gray-400"
  | inherited => inherited
  end.

(** ** Biodiversity analysis payload and the offset rows *)


(** What a rendered row displays next to its label. *)
Inductive cell : Type :=
  | CText (s : option string)
  | CRatio (q : option Q)
  | CTimes (q : option Q)
  | CHectares (q : option Q)
  | CRand (q : option Q).

Definition row : Type := (string * cell)%type.



Definition shows (label : string) (rows : list row) : bool :=
  existsb (fun r => String.eqb (fst r) label) rows.





(** ** Enumerations of [schema.sql] as types *)

(** [capeeco.cba_category], constructors in declaration order. *)
Inductive cba : Type :=
  | PA | CA | CBA_1a | CBA_1b | CBA_1c | CBA_2 | ESA_1 | ESA_2 | ONA.

Definition cba_label (c : cba) : string :=
  match c with
  | PA => "PA" | CA => "CA"
  | CBA_1a => "CBA 1a" | CBA_1b => "CBA 1b" | CBA_1c => "CBA 1c"
  | CBA_2 => "CBA 2"
  | ESA_1 => "ESA 1" | ESA_2 => "ESA 2"
  | ONA => "ONA"
  end.

Definition all_cba : list cba :=
  [PA; CA; CBA_1a; CBA_1b; CBA_1c; CBA_2; ESA_1; ESA_2; ONA].

(** [capeeco.ecosystem_threat_status]. *)
Inductive threat : Type := CR | EN | VU | LT.

Definition threat_label (t : threat) : string :=
  match t with CR => "CR" | EN => "EN" | VU => "VU" | LT => "LT" end.

(** [capeeco.habitat_condition]. *)
Inductive habitat : Type :=
  | Natural | Good | Fair | Poor | Irreversibly_modified | Natural_aquatic_habitat.

Definition habitat_label (h : habitat) : string :=
  match h with
  | Natural => "Natural" | Good => "Good" | Fair => "Fair" | Poor => "Poor"
  | Irreversibly_modified => "Irreversibly modified"
  | Natural_aquatic_habitat => "Natural aquatic habitat"
  end.

(** ** Offset Rule Engine *)

Module OffsetEngine.

(** Modelled from the spec: the Rule Configuration (the backend's
    configuration file and its loader are not embedded here).  A
    designation entry is tagged: [Some (Some r)] carries a
    ratio of its own, [Some None] carries none (fall back to the
    ecosystem ratio), and a missing key is a lookup miss. *)
Record rule_configuration := {
  designation_ratio : gmap string (option Q);
  threat_status_ratio : gmap string Q;
  condition_multipliers : gmap string Q;
  inside_edge_adjustment : Q;
  outside_edge_adjustment : Q;
  cost_per_hectare : gmap string Q
}.

(** Modelled from the spec: designation keys are canonicalised before
    every configuration lookup (space-separated tokens in the data,
    underscore-separated tokens in the configuration). *)
Definition space : Ascii.ascii := Eval cbv in Ascii.ascii_of_nat 32.
Definition underscore : Ascii.ascii := Eval cbv in Ascii.ascii_of_nat 95.

Fixpoint canonical_key (s : string) : string :=
  match s with
  | EmptyString => EmptyString
  | String c rest =>
    String (if Ascii.eqb c space then underscore else c) (canonical_key rest)
  end.

(** Modelled from the spec: the three no-go designations. *)
Definition is_no_go (d : cba) : bool :=
  match d with
  | PA | CA | CBA_1a => true
  | _ => false
  end.

(** Modelled from the spec: what the engine is told about the parcel
    next to its resolved designation (habitat condition, ecosystem
    threat status, urban-edge classification). *)
Record parcel := {
  parcel_condition : habitat;
  parcel_threat : threat;
  parcel_inside_urban_edge : bool
}.

(** Modelled from the spec: the numbers of a computed offset, named
    after the columns of [capeeco.offset_calculations]. *)
Record offset_numbers := {
  footprint_ha : Q;
  base_ratio : Q;
  condition_multiplier : Q;
  urban_edge_adjustment : Q;
  required_offset_ha : Q;
  cost_estimate : option Q
}.

(** Modelled from the spec: the outcomes section 7 keeps apart (no-go,
    configuration defect, computed offset, a required area of zero
    being a computed offset). *)
Inductive offset_result : Type :=
  | NoGo (d : cba) (reason : string)
  | ConfigurationError (missing_key : string)
  | Computed (d : cba) (n : offset_numbers).

(** Modelled from the spec: the reason a no-go result signals. *)
Definition no_go_reason (d : cba) : string :=
  String.append "Development is not permitted in " (cba_label d).

(** Modelled from the spec: the base ratio is the designation's own,
    else the one of the ecosystem threat status; a key missing from the
    configuration is reported, never read as zero. *)
Definition resolve_base_ratio (cfg : rule_configuration) (p : parcel) (d : cba)
  : string + Q :=
  let key := canonical_key (cba_label d) in
  match designation_ratio cfg !! key with
  | None => inl key
  | Some (Some r) => inr r
  | Some None =>
    let tkey := threat_label (parcel_threat p) in
    match threat_status_ratio cfg !! tkey with
    | None => inl tkey
    | Some r => inr r
    end
  end.

(** Modelled from the spec: [calculate_offset(parcel,
    proposed_footprint_area, resolved_designation)] of section 4.5,
    with the configuration passed explicitly. *)
Definition calculate_offset (cfg : rule_configuration) (p : parcel)
    (footprint_sqm : Q) (d : cba) : offset_result :=
  if is_no_go d then NoGo d (no_go_reason d)
  else
    match resolve_base_ratio cfg p d with
    | inl key => ConfigurationError key
    | inr base =>
      let ckey := habitat_label (parcel_condition p) in
      match condition_multipliers cfg !! ckey with
      | None => ConfigurationError ckey
      | Some mult =>
        let adj := if parcel_inside_urban_edge p
                   then inside_edge_adjustment cfg
                   else outside_edge_adjustment cfg in
        let fp := (footprint_sqm / 10000)%Q in
        let required := (fp * base * mult * adj)%Q in
        if Qle_bool required 0 then
          Computed d {| footprint_ha := fp; base_ratio := base; condition_multiplier := mult;
                        urban_edge_adjustment := adj;
                        required_offset_ha := required;
                        cost_estimate := None |}
        else
          let key := canonical_key (cba_label d) in
          match cost_per_hectare cfg !! key with
          | None => ConfigurationError key
          | Some rate =>
            Computed d {| footprint_ha := fp; base_ratio := base; condition_multiplier := mult;
                          urban_edge_adjustment := adj;
                          required_offset_ha := required;
                          cost_estimate := Some (required * rate)%Q |}
          end
      end
    end.


Definition result_required (r : offset_result) : option Q :=
  match r with Computed _ n => Some (required_offset_ha n) | _ => None end.

Definition result_cost (r : offset_result) : option Q :=
  match r with Computed _ n => cost_estimate n | _ => None end.

End OffsetEngine.



(** ** [schema.sql]: a data-definition interpreter *)

Inductive sql_type : Type :=
  | BIGSERIAL | SERIAL | INTEGER | BIGINT
  | VARCHAR (n : nat) | TEXT
  | DOUBLE_PRECISION | BOOLEAN | TIMESTAMPTZ | DATE
  | GEOMETRY (shape : string) (srid : nat)
  | ENUM_TYPE (name : string).

Inductive default_expr : Type :=
  | NEXTVAL (sequence : string)
  | NOW
  | LITERAL (b : bool).

Inductive column_constraint : Type :=
  | PRIMARY_KEY
  | UNIQUE
  | NOT_NULL
  | DEFAULT (e : default_expr)
  | REFERENCES (table column : string).

Inductive table_element : Type :=
  | COLUMN (name : string) (ty : sql_type) (cs : list column_constraint)
  | UNIQUE_ON (columns : list string).

Inductive statement : Type :=
  | CREATE_TYPE_AS_ENUM (name : string) (labels : list string)
  | CREATE_TABLE (if_not_exists : bool) (name : string) (elements : list table_element)
  | CREATE_TABLE_LIKE_INCLUDING_ALL (name source : string)
  | ALTER_TABLE_DROP_CONSTRAINT_IF_EXISTS (table constraint_name : string).

(** The catalog the statements build. *)
Record column := {
  col_name : string;
  col_type : sql_type;
  col_not_null : bool;
  col_default : option default_expr
}.

Inductive table_constraint : Type :=
  | PrimaryKey (cols : list string)
  | Unique (cols : list string)
  | ForeignKey (cols : list string) (ref_table : string) (ref_cols : list string).

Record relation := {
  rel_columns : list column;
  rel_constraints : list (string * table_constraint)
}.

Record catalog := {
  enums : gmap string (list string);
  relations : gmap string relation
}.

Definition empty_catalog : catalog := {| enums := ∅; relations := ∅ |}.

Inductive sql_error : Type :=
  | DuplicateObject (name : string)
  | UndefinedTable (name : string)
  | UndefinedType (name : string)
  | UndefinedColumn (table column : string)
  | NotNullViolation (table column : string)
  | UniqueViolation (constraint_name : string)
  | ForeignKeyViolation (constraint_name : string)
  | ReferencedByForeignKey (table : string).

(** A small error monad for statements that may be rejected. *)
Definition sql (A : Type) : Type := (sql_error + A)%type.

#[global] Instance sql_ret : MRet sql := fun A a => inr a.

#[global] Instance sql_bind : MBind sql := fun A B f m =>
  match m with
  | inl e => inl e
  | inr a => f a
  end.

Definition ok {A : Type} (a : A) : sql A := inr a.
Definition raise {A : Type} (e : sql_error) : sql A := inl e.

Definition has_constraint (c : column_constraint) (cs : list column_constraint) : bool :=
  existsb (fun c' =>
    match c, c' with
    | PRIMARY_KEY, PRIMARY_KEY => true
    | UNIQUE, UNIQUE => true
    | NOT_NULL, NOT_NULL => true
    | _, _ => false
    end) cs.

Definition is_serial (ty : sql_type) : bool :=
  match ty with BIGSERIAL | SERIAL => true | _ => false end.

Definition declared_default (cs : list column_constraint) : option default_expr :=
  head (omap (fun c => match c with DEFAULT e => Some e | _ => None end) cs).

(** PostgreSQL's default names: [<table>_<col>_seq], [<table>_pkey],
    [<table>_<cols>_key], [<table>_<cols>_fkey]. *)
Definition join_names (parts : list string) : string := String.concat "_" parts.

Definition seq_name (table col : string) : string := join_names [table; col; "seq"].
Definition pkey_name (table : string) : string := join_names [table; "pkey"].
Definition key_name (table : string) (cols : list string) : string :=
  join_names (table :: cols ++ ["key"]).
Definition fkey_name (table : string) (cols : list string) : string :=
  join_names (table :: cols ++ ["fkey"]).

(** A serial column and a primary-key column are implicitly [NOT NULL];
    a serial column defaults to the next value of its own sequence. *)
Definition column_of (table name : string) (ty : sql_type)
    (cs : list column_constraint) : column :=
  {| col_name := name;
     col_type := ty;
     col_not_null := is_serial ty || has_constraint PRIMARY_KEY cs
                     || has_constraint NOT_NULL cs;
     col_default := match declared_default cs with
                    | Some e => Some e
                    | None => if is_serial ty then Some (NEXTVAL (seq_name table name))
                              else None
                    end |}.

Definition columns_of (table : string) (elements : list table_element) : list column :=
  omap (fun e => match e with
                 | COLUMN name ty cs => Some (column_of table name ty cs)
                 | UNIQUE_ON _ => None
                 end) elements.

Definition column_constraints_of (table name : string) (cs : list column_constraint)
  : list (string * table_constraint) :=
  omap (fun c => match c with
                 | PRIMARY_KEY => Some (pkey_name table, PrimaryKey [name])
                 | UNIQUE => Some (key_name table [name], Unique [name])
                 | REFERENCES t col =>
                   Some (fkey_name table [name], ForeignKey [name] t [col])
                 | NOT_NULL | DEFAULT _ => None
                 end) cs.

Definition constraints_of (table : string) (elements : list table_element)
  : list (string * table_constraint) :=
  concat (map (fun e => match e with
                        | COLUMN name _ cs => column_constraints_of table name cs
                        | UNIQUE_ON cols => [ (key_name table cols, Unique cols) ]
                        end) elements).

(** [LIKE src INCLUDING ALL]: columns come over with their types,
    [NOT NULL] markers and defaults; primary-key and unique constraints
    come over with their indexes and are renamed after the new table;
    foreign keys are never copied. *)
Definition like_constraints (table : string) (src : relation)
  : list (string * table_constraint) :=
  omap (fun nc => match snd nc with
                  | PrimaryKey cols => Some (pkey_name table, PrimaryKey cols)
                  | Unique cols => Some (key_name table cols, Unique cols)
                  | ForeignKey _ _ _ => None
                  end) (rel_constraints src).

Definition like_including_all (table : string) (src : relation) : relation :=
  {| rel_columns := rel_columns src;
     rel_constraints := like_constraints table src |}.

Definition drop_constraint (name : string) (r : relation) : relation :=
  {| rel_columns := rel_columns r;
     rel_constraints :=
       filter (fun nc => negb (String.eqb (fst nc) name)) (rel_constraints r) |}.

Definition missing_enum (c : catalog) (elements : list table_element) : option string :=
  head (omap (fun e => match e with
                       | COLUMN _ (ENUM_TYPE n) _ =>
                         match enums c !! n with None => Some n | Some _ => None end
                       | _ => None
                       end) elements).

Definition missing_reference (c : catalog) (table : string)
    (elements : list table_element) : option string :=
  head (omap (fun nc => match snd nc with
                        | ForeignKey _ t _ =>
                          match relations c !! t with None => Some t | Some _ => None end
                        | _ => None
                        end) (constraints_of table elements)).

Definition exec_statement (c : catalog) (s : statement) : sql catalog :=
  match s with
  | CREATE_TYPE_AS_ENUM name labels =>
    match enums c !! name with
    | Some _ => raise (DuplicateObject name)
    | None => ok {| enums := <[name := labels]> (enums c); relations := relations c |}
    end
  | CREATE_TABLE if_not_exists name elements =>
    match relations c !! name with
    | Some _ => if if_not_exists then ok c else raise (DuplicateObject name)
    | None =>
      match missing_enum c elements, missing_reference c name elements with
      | Some n, _ => raise (UndefinedType n)
      | None, Some t => raise (UndefinedTable t)
      | None, None =>
        ok {| enums := enums c;
              relations := <[name := {| rel_columns := columns_of name elements;
                                        rel_constraints := constraints_of name elements |}]>
                             (relations c) |}
      end
    end
  | CREATE_TABLE_LIKE_INCLUDING_ALL name source =>
    match relations c !! name, relations c !! source with
    | Some _, _ => raise (DuplicateObject name)
    | None, None => raise (UndefinedTable source)
    | None, Some src =>
      ok {| enums := enums c;
            relations := <[name := like_including_all name src]> (relations c) |}
    end
  | ALTER_TABLE_DROP_CONSTRAINT_IF_EXISTS table cname =>
    match relations c !! table with
    | None => raise (UndefinedTable table)
    | Some r =>
      ok {| enums := enums c;
            relations := <[table := drop_constraint cname r]> (relations c) |}
    end
  end.

Fixpoint exec_script (c : catalog) (script : list statement) : sql catalog :=
  match script with
  | [] => ok c
  | s :: rest => c' ← exec_statement c s; exec_script c' rest
  end.

(** ** [schema.sql]: the script

    Statements that neither create a relation nor touch a constraint
    (the two extensions, the schema reset, the comments and the plain
    index on [users.email]) are left out; the script starts from an
    empty schema because of [DROP SCHEMA IF EXISTS capeeco CASCADE]. *)

Definition cba_category_enum : list string :=
  ["PA"; "CA"; "CBA 1a"; "CBA 1b"; "CBA 1c"; "CBA 2"; "ESA 1"; "ESA 2"; "ONA"].

Definition ecosystem_threat_status_enum : list string := ["CR"; "EN"; "VU"; "LT"].

Definition habitat_condition_enum : list string :=
  ["Natural"; "Good"; "Fair"; "Poor"; "Irreversibly modified"; "Natural aquatic habitat"].

Definition created_at : table_element := COLUMN "created_at" TIMESTAMPTZ [DEFAULT NOW].
Definition id_bigserial : table_element := COLUMN "id" BIGSERIAL [PRIMARY_KEY].
Definition multipolygon : sql_type := GEOMETRY "MultiPolygon" 4326.

Definition properties_table : list table_element :=
  [ id_bigserial;
    COLUMN "objectid" INTEGER [];
    COLUMN "sg26_code" (VARCHAR 30) [UNIQUE; NOT_NULL];
    COLUMN "sl_parcel_key" BIGINT [];
    COLUMN "erf_number" (VARCHAR 50) [];
    COLUMN "address_number" INTEGER [];
    COLUMN "address_suffix" (VARCHAR 10) [];
    COLUMN "street_name" (VARCHAR 200) [];
    COLUMN "street_type" (VARCHAR 50) [];
    COLUMN "suburb" (VARCHAR 200) [];
    COLUMN "alt_suburb_name" (VARCHAR 200) [];
    COLUMN "ward" (VARCHAR 10) [];
    COLUMN "subcouncil" (VARCHAR 10) [];
    COLUMN "legal_status" (VARCHAR 50) [];
    COLUMN "zoning_raw" TEXT [];
    COLUMN "zoning_primary" (VARCHAR 200) [];
    COLUMN "area_sqm" DOUBLE_PRECISION [];
    COLUMN "area_ha" DOUBLE_PRECISION [];
    COLUMN "centroid_lon" DOUBLE_PRECISION [];
    COLUMN "centroid_lat" DOUBLE_PRECISION [];
    COLUMN "full_address" TEXT [];
    COLUMN "geom" multipolygon [NOT_NULL];
    created_at ].

Definition biodiversity_areas_table : list table_element :=
  [ id_bigserial;
    COLUMN "objectid" INTEGER [];
    COLUMN "cba_category" (ENUM_TYPE "cba_category") [NOT_NULL];
    COLUMN "cba_name" (VARCHAR 200) [];
    COLUMN "subtype" TEXT [];
    COLUMN "sdf_category" (VARCHAR 100) [];
    COLUMN "description" TEXT [];
    COLUMN "significance" TEXT [];
    COLUMN "objective" TEXT [];
    COLUMN "action" TEXT [];
    COLUMN "compatible_use" TEXT [];
    COLUMN "habitat_cond" (ENUM_TYPE "habitat_condition") [];
    COLUMN "esa_significance" (VARCHAR 100) [];
    COLUMN "protected_area" (VARCHAR 200) [];
    COLUMN "proclaimed" (VARCHAR 100) [];
    COLUMN "managed" BOOLEAN [];
    COLUMN "primary_class" (VARCHAR 100) [];
    COLUMN "area_ha" DOUBLE_PRECISION [];
    COLUMN "perimeter_m" DOUBLE_PRECISION [];
    COLUMN "geom" multipolygon [NOT_NULL];
    created_at ].

Definition ecosystem_types_table : list table_element :=
  [ id_bigserial;
    COLUMN "objectid" INTEGER [];
    COLUMN "vegetation_type" (VARCHAR 200) [];
    COLUMN "vegetation_subtype" (VARCHAR 200) [];
    COLUMN "community" (VARCHAR 200) [];
    COLUMN "threat_status" (ENUM_TYPE "ecosystem_threat_status") [];
    COLUMN "area_ha" DOUBLE_PRECISION [];
    COLUMN "perimeter_m" DOUBLE_PRECISION [];
    COLUMN "geom" multipolygon [NOT_NULL];
    created_at ].

Definition wetlands_table : list table_element :=
  [ id_bigserial;
    COLUMN "objectid" INTEGER [];
    COLUMN "geom" multipolygon [NOT_NULL];
    created_at ].

Definition urban_edges_table : list table_element :=
  [ id_bigserial;
    COLUMN "objectid" INTEGER [];
    COLUMN "edge_type" (VARCHAR 50) [NOT_NULL];
    COLUMN "geom" (GEOMETRY "Geometry" 4326) [NOT_NULL];
    created_at ].

Definition zoning_overlays_table : list table_element :=
  [ id_bigserial;
    COLUMN "objectid" INTEGER [];
    COLUMN "geom" multipolygon [NOT_NULL];
    created_at ].

Definition heritage_sites_table : list table_element :=
  [ id_bigserial;
    COLUMN "objectid" INTEGER [];
    COLUMN "source" (VARCHAR 20) [NOT_NULL];
    COLUMN "site_name" (VARCHAR 500) [];
    COLUMN "heritage_category" INTEGER [];
    COLUMN "resource_type_1" (VARCHAR 200) [];
    COLUMN "resource_type_2" (VARCHAR 200) [];
    COLUMN "description" TEXT [];
    COLUMN "architectural_style" (VARCHAR 200) [];
    COLUMN "period" (VARCHAR 200) [];
    COLUMN "nhra_status" (VARCHAR 200) [];
    COLUMN "city_grading" (VARCHAR 200) [];
    COLUMN "street_address" TEXT [];
    COLUMN "area_ha" DOUBLE_PRECISION [];
    COLUMN "geom" multipolygon [NOT_NULL];
    created_at ].

Definition address_points_table : list table_element :=
  [ id_bigserial;
    COLUMN "objectid" INTEGER [];
    COLUMN "address_number" INTEGER [];
    COLUMN "address_prefix" (VARCHAR 10) [];
    COLUMN "address_suffix" (VARCHAR 10) [];
    COLUMN "suburb" (VARCHAR 200) [];
    COLUMN "street_name" (VARCHAR 200) [];
    COLUMN "street_type" (VARCHAR 50) [];
    COLUMN "full_address" (VARCHAR 500) [];
    COLUMN "property_id" BIGINT [];
    COLUMN "geom" (GEOMETRY "Point" 4326) [NOT_NULL];
    created_at ].

Definition solar_installations_table : list table_element :=
  [ id_bigserial;
    COLUMN "objectid" INTEGER [];
    COLUMN "geom" (GEOMETRY "Point" 4326) [NOT_NULL];
    created_at ].

Definition environmental_focus_areas_table : list table_element :=
  [ id_bigserial;
    COLUMN "objectid" INTEGER [];
    COLUMN "name" (VARCHAR 200) [];
    COLUMN "description" (VARCHAR 500) [];
    COLUMN "area_ha" DOUBLE_PRECISION [];
    COLUMN "geom" multipolygon [NOT_NULL];
    created_at ].

Definition property_biodiversity_table : list table_element :=
  [ id_bigserial;
    COLUMN "property_id" BIGINT [NOT_NULL; REFERENCES "properties" "id"];
    COLUMN "biodiversity_area_id" BIGINT [NOT_NULL; REFERENCES "biodiversity_areas" "id"];
    COLUMN "cba_category" (ENUM_TYPE "cba_category") [NOT_NULL];
    COLUMN "habitat_condition" (ENUM_TYPE "habitat_condition") [];
    COLUMN "overlap_area_sqm" DOUBLE_PRECISION [];
    COLUMN "overlap_pct" DOUBLE_PRECISION [];
    created_at;
    UNIQUE_ON ["property_id"; "biodiversity_area_id"] ].

Definition property_ecosystems_table : list table_element :=
  [ id_bigserial;
    COLUMN "property_id" BIGINT [NOT_NULL; REFERENCES "properties" "id"];
    COLUMN "ecosystem_type_id" BIGINT [NOT_NULL; REFERENCES "ecosystem_types" "id"];
    COLUMN "vegetation_type" (VARCHAR 200) [];
    COLUMN "threat_status" (ENUM_TYPE "ecosystem_threat_status") [];
    COLUMN "overlap_area_sqm" DOUBLE_PRECISION [];
    COLUMN "overlap_pct" DOUBLE_PRECISION [];
    created_at;
    UNIQUE_ON ["property_id"; "ecosystem_type_id"] ].

Definition property_urban_edge_table : list table_element :=
  [ id_bigserial;
    COLUMN "property_id" BIGINT [NOT_NULL; REFERENCES "properties" "id"; UNIQUE];
    COLUMN "inside_urban_edge" BOOLEAN [NOT_NULL];
    created_at ].

Definition offset_calculations_table : list table_element :=
  [ id_bigserial;
    COLUMN "property_id" BIGINT [NOT_NULL; REFERENCES "properties" "id"];
    COLUMN "proposed_footprint_sqm" DOUBLE_PRECISION [NOT_NULL];
    COLUMN "cba_category" (ENUM_TYPE "cba_category") [];
    COLUMN "ecosystem_threat_status" (ENUM_TYPE "ecosystem_threat_status") [];
    COLUMN "habitat_condition" (ENUM_TYPE "habitat_condition") [];
    COLUMN "base_ratio" DOUBLE_PRECISION [];
    COLUMN "condition_multiplier" DOUBLE_PRECISION [];
    COLUMN "urban_edge_adjustment" DOUBLE_PRECISION [];
    COLUMN "required_offset_ha" DOUBLE_PRECISION [];
    COLUMN "estimated_cost_zar" DOUBLE_PRECISION [];
    COLUMN "is_no_go" BOOLEAN [DEFAULT (LITERAL false)];
    COLUMN "no_go_reason" TEXT [];
    COLUMN "conservation_bank_eligible" BOOLEAN [DEFAULT (LITERAL false)];
    COLUMN "notes" TEXT [];
    created_at ].

Definition rainfall_stations_table : list table_element :=
  [ COLUMN "id" SERIAL [PRIMARY_KEY];
    COLUMN "station_id" (VARCHAR 50) [UNIQUE; NOT_NULL];
    COLUMN "station_name" (VARCHAR 200) [];
    COLUMN "geom" (GEOMETRY "Point" 4326) [];
    created_at ].

Definition rainfall_data_table : list table_element :=
  [ id_bigserial;
    COLUMN "station_id" (VARCHAR 50) [NOT_NULL];
    COLUMN "observation_date" DATE [NOT_NULL];
    COLUMN "rainfall_mm" DOUBLE_PRECISION [];
    created_at ].

Definition solar_potential_table : list table_element :=
  [ id_bigserial;
    COLUMN "property_id" BIGINT [NOT_NULL; REFERENCES "properties" "id"; UNIQUE];
    COLUMN "roof_area_sqm" DOUBLE_PRECISION [];
    COLUMN "annual_kwh_estimate" DOUBLE_PRECISION [];
    COLUMN "annual_kwh_per_sqm" DOUBLE_PRECISION [];
    COLUMN "payback_years" DOUBLE_PRECISION [];
    COLUMN "notes" TEXT [];
    created_at ].

Definition users_table : list table_element :=
  [ id_bigserial;
    COLUMN "email" (VARCHAR 255) [UNIQUE; NOT_NULL];
    COLUMN "hashed_password" (VARCHAR 255) [NOT_NULL];
    COLUMN "full_name" (VARCHAR 255) [];
    COLUMN "is_active" BOOLEAN [NOT_NULL; DEFAULT (LITERAL true)];
    COLUMN "created_at" TIMESTAMPTZ [NOT_NULL; DEFAULT NOW];
    COLUMN "updated_at" TIMESTAMPTZ [NOT_NULL; DEFAULT NOW] ].

(** The staging relations and the production relation each one copies. *)
Definition staging_tables : list (string * string) :=
  [ ("staging_properties", "properties");
    ("staging_biodiversity", "biodiversity_areas");
    ("staging_ecosystem_types", "ecosystem_types");
    ("staging_address_points", "address_points");
    ("staging_heritage", "heritage_sites") ].

Definition schema_sql : list statement :=
  [ CREATE_TYPE_AS_ENUM "cba_category" cba_category_enum;
    CREATE_TYPE_AS_ENUM "ecosystem_threat_status" ecosystem_threat_status_enum;
    CREATE_TYPE_AS_ENUM "habitat_condition" habitat_condition_enum;
    CREATE_TABLE false "properties" properties_table;
    CREATE_TABLE false "biodiversity_areas" biodiversity_areas_table;
    CREATE_TABLE false "ecosystem_types" ecosystem_types_table;
    CREATE_TABLE false "wetlands" wetlands_table;
    CREATE_TABLE false "urban_edges" urban_edges_table;
    CREATE_TABLE false "zoning_overlays" zoning_overlays_table;
    CREATE_TABLE false "heritage_sites" heritage_sites_table;
    CREATE_TABLE false "address_points" address_points_table;
    CREATE_TABLE false "solar_installations" solar_installations_table;
    CREATE_TABLE false "environmental_focus_areas" environmental_focus_areas_table;
    CREATE_TABLE false "property_biodiversity" property_biodiversity_table;
    CREATE_TABLE false "property_ecosystems" property_ecosystems_table;
    CREATE_TABLE false "property_urban_edge" property_urban_edge_table;
    CREATE_TABLE false "offset_calculations" offset_calculations_table;
    CREATE_TABLE false "rainfall_stations" rainfall_stations_table;
    CREATE_TABLE false "rainfall_data" rainfall_data_table;
    CREATE_TABLE false "solar_potential" solar_potential_table;
    CREATE_TABLE_LIKE_INCLUDING_ALL "staging_properties" "properties";
    CREATE_TABLE_LIKE_INCLUDING_ALL "staging_biodiversity" "biodiversity_areas";
    CREATE_TABLE_LIKE_INCLUDING_ALL "staging_ecosystem_types" "ecosystem_types";
    CREATE_TABLE_LIKE_INCLUDING_ALL "staging_address_points" "address_points";
    CREATE_TABLE_LIKE_INCLUDING_ALL "staging_heritage" "heritage_sites";
    ALTER_TABLE_DROP_CONSTRAINT_IF_EXISTS "staging_properties" "staging_properties_sg26_code_key";
    ALTER_TABLE_DROP_CONSTRAINT_IF_EXISTS "staging_properties" "staging_properties_pkey";
    ALTER_TABLE_DROP_CONSTRAINT_IF_EXISTS "staging_biodiversity" "staging_biodiversity_pkey";
    ALTER_TABLE_DROP_CONSTRAINT_IF_EXISTS "staging_ecosystem_types" "staging_ecosystem_types_pkey";
    ALTER_TABLE_DROP_CONSTRAINT_IF_EXISTS "staging_address_points" "staging_address_points_pkey";
    ALTER_TABLE_DROP_CONSTRAINT_IF_EXISTS "staging_heritage" "staging_heritage_pkey";
    CREATE_TABLE true "users" users_table ].

(** The catalog after schema setup; the script runs without error (see
    [schema_sql_runs]), so the fallback is never taken. *)
Definition schema_catalog : catalog :=
  match exec_script empty_catalog schema_sql with
  | inr c => c
  | inl _ => empty_catalog
  end.

(** ** Rows and the constraint checks a relation performs *)

Inductive sql_value : Type :=
  | NULL
  | INT (z : Z)
  | NUM (q : Q)
  | STR (s : string)
  | BOOL (b : bool)
  | GEOM (wkt : string).

Definition is_null (v : sql_value) : bool :=
  match v with NULL => true | _ => false end.

(** SQL equality on key values: [NULL] equals nothing, itself included. *)
Definition value_matches (a b : sql_value) : bool :=
  match a, b with
  | INT x, INT y => Z.eqb x y
  | NUM x, NUM y => Qeq_bool x y
  | STR x, STR y => String.eqb x y
  | BOOL x, BOOL y => Bool.eqb x y
  | GEOM x, GEOM y => String.eqb x y
  | _, _ => false
  end.

Definition field (r : gmap string sql_value) (c : string) : sql_value :=
  default NULL (r !! c).

Record database := {
  db_catalog : catalog;
  db_rows : gmap string (list (gmap string sql_value));
  db_sequences : gmap string Z
}.

Definition rows_of (db : database) (table : string) : list (gmap string sql_value) :=
  default [] (db_rows db !! table).

Definition next_value (seqs : gmap string Z) (s : string) : Z :=
  (default 0 (seqs !! s) + 1)%Z.

Definition eval_default (seqs : gmap string Z) (e : default_expr) : sql_value :=
  match e with
  | NEXTVAL s => INT (next_value seqs s)
  | NOW => STR "now"
  | LITERAL b => BOOL b
  end.

(** The value a column takes in the row being inserted: the supplied
    one, else the column default, else [NULL]. *)
Definition value_in (seqs : gmap string Z) (r : gmap string sql_value) (c : column)
  : sql_value :=
  match r !! col_name c with
  | Some v => v
  | None =>
    match col_default c with
    | Some e => eval_default seqs e
    | None => NULL
    end
  end.

Definition complete (seqs : gmap string Z) (rel : relation) (r : gmap string sql_value)
  : gmap string sql_value :=
  foldr (fun c acc => <[col_name c := value_in seqs r c]> acc) ∅ (rel_columns rel).

Definition advance (seqs : gmap string Z) (rel : relation) (r : gmap string sql_value)
  : gmap string Z :=
  foldr (fun c acc =>
           match r !! col_name c, col_default c with
           | None, Some (NEXTVAL s) => <[s := next_value seqs s]> acc
           | _, _ => acc
           end) seqs (rel_columns rel).

Definition undefined_column (rel : relation) (r : gmap string sql_value) : option string :=
  head (filter (fun k => negb (existsb (fun c => String.eqb (col_name c) k) (rel_columns rel)))
               (map fst (map_to_list r))).

Definition null_violation (seqs : gmap string Z) (rel : relation)
    (r : gmap string sql_value) : option string :=
  col_name <$>
    find (fun c => col_not_null c && is_null (value_in seqs r c)) (rel_columns rel).

Definition key_match (cols : list string) (a b : gmap string sql_value) : bool :=
  forallb (fun c => value_matches (field a c) (field b c)) cols.

Definition unique_columns (tc : table_constraint) : option (list string) :=
  match tc with
  | PrimaryKey cols | Unique cols => Some cols
  | ForeignKey _ _ _ => None
  end.

Definition unique_violation (rel : relation) (rows : list (gmap string sql_value))
    (new : gmap string sql_value) : option string :=
  fst <$>
    find (fun nc => match unique_columns (snd nc) with
                    | Some cols => existsb (key_match cols new) rows
                    | None => false
                    end) (rel_constraints rel).

Definition references_ok (db : database) (new : gmap string sql_value)
    (cols : list string) (ref_table : string) (ref_cols : list string) : bool :=
  existsb (fun c => is_null (field new c)) cols
  || existsb (fun target =>
                forallb (fun cc => value_matches (field new (fst cc)) (field target (snd cc)))
                        (zip cols ref_cols))
             (rows_of db ref_table).

Definition foreign_key_violation (db : database) (rel : relation)
    (new : gmap string sql_value) : option string :=
  fst <$>
    find (fun nc => match snd nc with
                    | ForeignKey cols t rcols => negb (references_ok db new cols t rcols)
                    | _ => false
                    end) (rel_constraints rel).

(** [INSERT INTO table (...) VALUES (...)] for one row: the checks of
    the table's constraints, in the order unknown column, [NOT NULL],
    primary key and [UNIQUE], foreign key.  The values of [r] are taken
    as already converted to their columns' types; the conversion
    errors of the input functions (an unknown enum label, a string too
    long for its [VARCHAR], a geometry of another type) come before
    these checks and are not part of this model.  A refused insert
    leaves the sequences as they were (PostgreSQL keeps the values a
    refused insert has drawn). *)
Definition insert_row (db : database) (table : string) (r : gmap string sql_value)
  : sql database :=
  match relations (db_catalog db) !! table with
  | None => raise (UndefinedTable table)
  | Some rel =>
    let new := complete (db_sequences db) rel r in
    match undefined_column rel r with
    | Some c => raise (UndefinedColumn table c)
    | None =>
      match null_violation (db_sequences db) rel r with
      | Some c => raise (NotNullViolation table c)
      | None =>
        match unique_violation rel (rows_of db table) new with
        | Some n => raise (UniqueViolation n)
        | None =>
          match foreign_key_violation db rel new with
          | Some n => raise (ForeignKeyViolation n)
          | None =>
            ok {| db_catalog := db_catalog db;
                  db_rows := <[table := new :: rows_of db table]> (db_rows db);
                  db_sequences := advance (db_sequences db) rel r |}
          end
        end
      end
    end
  end.

(** Is [table] the target of a foreign key of some relation? *)
Definition referenced (c : catalog) (table : string) : bool :=
  existsb (fun nr =>
             existsb (fun nc => match snd nc with
                                | ForeignKey _ t _ => String.eqb t table
                                | _ => false
                                end) (rel_constraints (snd nr)))
          (map_to_list (relations c)).

(** [TRUNCATE table]; PostgreSQL refuses it for a relation that a
    foreign key references. *)
Definition truncate (db : database) (table : string) : sql database :=
  match relations (db_catalog db) !! table with
  | None => raise (UndefinedTable table)
  | Some _ =>
    if referenced (db_catalog db) table then raise (ReferencedByForeignKey table)
    else ok {| db_catalog := db_catalog db;
               db_rows := <[table := []]> (db_rows db);
               db_sequences := db_sequences db |}
  end.

Inductive command : Type :=
  | INSERT_INTO (table : string) (r : gmap string sql_value)
  | TRUNCATE (table : string).

Definition exec_command (db : database) (c : command) : sql database :=
  match c with
  | INSERT_INTO table r => insert_row db table r
  | TRUNCATE table => truncate db table
  end.

(** The database right after schema setup, and the states the loader
    and the resolver can drive it to. *)
Definition initial_db : database :=
  {| db_catalog := schema_catalog; db_rows := ∅; db_sequences := ∅ |}.

Inductive reachable : database → Prop :=
  | reachable_initial : reachable initial_db
  | reachable_step db c db' :
      reachable db → exec_command db c = inr db' → reachable db'.

(** ** Net-Zero Scorecard: rating bands *)

Module Scorecard.

(** Modelled from the spec: the band thresholds (the scoring engine and
    its constants are backend code that is not embedded here); the
    band names are the keys of [GREENSTAR_COLORS]. *)
Record thresholds := {
  six_star : Q;
  five_star : Q;
  four_star : Q;
  three_star : Q
}.

(** Modelled from the spec: the thresholds are ordered, lowest band
    first. *)
Definition descending (th : thresholds) : Prop :=
  (three_star th <= four_star th)%Q ∧ (four_star th <= five_star th)%Q
  ∧ (five_star th <= six_star th)%Q.

(** Modelled from the spec: "maps the total to a rating band (6-star at
    or above the highest threshold ... below-rated below the lowest)". *)
Definition rating_band (th : thresholds) (total : Q) : string :=
  if Qle_bool (six_star th) total then "6-star"
  else if Qle_bool (five_star th) total then "5-star"
  else if Qle_bool (four_star th) total then "4-star"
  else if Qle_bool (three_star th) total then "3-star"
  else "Below rated".

(** Modelled from the spec: the five category maxima. *)
Definition maxima : netzero_scores :=
  {| energy := 35; water := 25; ecology := 20; location := 10;
     materials_innovation := 10 |}.

(** Modelled from the spec: the total is the sum of the sub-scores. *)
Definition total_of (s : netzero_scores) : Q :=
  (energy s + water s + ecology s + location s + materials_innovation s)%Q.

End Scorecard.

(** ** Severity order of the designations *)

Fixpoint index_of (x : string) (l : list string) : option nat :=
  match l with
  | [] => None
  | y :: rest => if String.eqb y x then Some 0 else S <$> index_of x rest
  end.

(** [a] comes strictly before [b] in [l]. *)
Definition precedes (l : list string) (a b : string) : bool :=
  match index_of a l, index_of b l with
  | Some i, Some j => Nat.ltb i j
  | _, _ => false
  end.

(** Modelled from the spec: the fixed severity order of section 4.4,
    most severe first (the resolver that applies it is backend code
    that is not embedded here). *)
Definition severity_order : list string :=
  ["PA"; "CA"; "CBA 1a"; "CBA 1b"; "CBA 1c"; "CBA 2"; "ESA 1"; "ESA 2"; "ONA"].

Definition more_severe (a b : string) : bool := precedes severity_order a b.

(** PostgreSQL orders the values of an enum type by declaration. *)
Definition enum_before (c : catalog) (type_name a b : string) : bool :=
  match enums c !! type_name with
  | Some labels => precedes labels a b
  | None => false
  end.

(** ** Promotion Manager *)

Module Promotion.

(** Modelled from the spec: step (2) of promotion, "null-geometry
    rejection - rows with missing/invalid geometry are dropped and
    counted" (the loader is backend code that is not embedded here).
    [valid] stands for the store's geometry validity test. *)
Definition has_geometry (valid : string → bool) (r : gmap string sql_value) : bool :=
  match field r "geom" with
  | GEOM g => valid g
  | _ => false
  end.

(** Modelled from the spec: the rows that go on to the swap and the
    count of the rejected ones. *)
Record outcome := {
  kept : list (gmap string sql_value);
  dropped : nat
}.

(** Modelled from the spec: rejected rows are dropped and counted. *)
Definition reject_null_geometry (valid : string → bool)
    (rows : list (gmap string sql_value)) : outcome :=
  {| kept := List.filter (has_geometry valid) rows;
     dropped := length (List.filter (fun r => negb (has_geometry valid r)) rows) |}.

(** How many of the dropped rows had no geometry at all. *)
Definition null_geometries (rows : list (gmap string sql_value)) : nat :=
  length (List.filter (fun r => is_null (field r "geom")) rows).

End Promotion.

(** ** The status badge as the specification words it *)

(** The category of the first biodiversity entry, when there is one. *)
Definition first_category (property : option property_payload) : option js_value :=
  p ← property; l ← biodiversity p; e ← head l; Some (cba_category e).

(** The badge table as the specification words it: three no-go
    categories, two exceptional ones, three offset ones, everything else
    clear. *)
Definition badge_table : list (string * string) :=
  [ ("PA", "no-go"); ("CA", "no-go"); ("CBA 1a", "no-go");
    ("CBA 1b", "exceptional"); ("CBA 1c", "exceptional");
    ("CBA 2", "offset"); ("ESA 1", "offset"); ("ESA 2", "offset") ].

Definition badge_for (category : option js_value) : string :=
  match category with
  | Some (JStr s) => default "clear" (js_get badge_table s)
  | _ => "clear"
  end.

Definition with_biodiversity (entries : list bio_entry) : option property_payload :=
  Some {| erf_number := None; suburb := None; area_sqm := None;
          inside_urban_edge := None; biodiversity := Some entries |}.

Definition entry_of (category : js_value) : bio_entry :=
  {| cba_category := category; entry_overlap_pct := None;
     vegetation_type := None; threat_status := None |}.

(** ** Sample inputs used to exercise the statements *)

Definition sample_configuration : OffsetEngine.rule_configuration :=
  {| OffsetEngine.designation_ratio :=
       {[ "CBA_1b" := Some 30%Q; "CBA_2" := Some 3%Q; "ESA_1" := None;
          "ONA" := Some 0%Q ]};
     OffsetEngine.threat_status_ratio := {[ "CR" := 30%Q; "EN" := 20%Q ]};
     OffsetEngine.condition_multipliers := {[ "Good" := (12 # 10)%Q; "Natural" := 1%Q ]};
     OffsetEngine.inside_edge_adjustment := 1%Q;
     OffsetEngine.outside_edge_adjustment := (15 # 10)%Q;
     OffsetEngine.cost_per_hectare := {[ "CBA_2" := 250000%Q; "ESA_1" := 100000%Q ]} |}.

Definition sample_parcel : OffsetEngine.parcel :=
  {| OffsetEngine.parcel_condition := Good;
     OffsetEngine.parcel_threat := EN;
     OffsetEngine.parcel_inside_urban_edge := true |}.


(** ** Catalog queries *)

Definition has_primary_key (r : relation) : bool :=
  existsb (fun nc => match snd nc with PrimaryKey _ => true | _ => false end)
          (rel_constraints r).

Definition has_unique (r : relation) : bool :=
  existsb (fun nc => match snd nc with Unique _ => true | _ => false end)
          (rel_constraints r).

Definition has_foreign_key (r : relation) : bool :=
  existsb (fun nc => match snd nc with ForeignKey _ _ _ => true | _ => false end)
          (rel_constraints r).

Definition column_named (r : relation) (name : string) : option column :=
  find (fun c => String.eqb (col_name c) name) (rel_columns r).

(** The column [name] of [r] is declared (or implied) [NOT NULL]. *)
Definition not_null_column (r : relation) (name : string) : bool :=
  match column_named r name with
  | Some c => col_not_null c
  | None => false
  end.

Definition without_default (r : relation) (name : string) : bool :=
  match column_named r name with
  | Some c => match col_default c with None => true | Some _ => false end
  | None => true
  end.

(** No two rows of the list agree on the key columns. *)
Fixpoint unique_rows (cols : list string) (rows : list (gmap string sql_value)) : Prop :=
  match rows with
  | [] => True
  | r :: rest => Forall (fun old => key_match cols r old = false) rest
                 ∧ unique_rows cols rest
  end.


(** A parcel row without geometry, as a loader would stage it. *)
Definition row_without_geometry : gmap string sql_value :=
  {[ "sg26_code" := STR "C01600010000000100000"; "erf_number" := STR "10-RE";
     "geom" := NULL ]}.

(** ** Invariants of the stored rows *)

(** Every stored row respects the [NOT NULL] columns of its relation. *)
Definition respects_not_null (db : database) : Prop :=
  ∀ table rel name row,
    relations (db_catalog db) !! table = Some rel →
    not_null_column rel name = true →
    In row (rows_of db table) →
    is_null (field row name) = false.

(** Every stored relation respects its primary-key and unique
    constraints. *)
Definition respects_unique (db : database) : Prop :=
  ∀ table rel cname tc cols,
    relations (db_catalog db) !! table = Some rel →
    In (cname, tc) (rel_constraints rel) →
    unique_columns tc = Some cols →
    unique_rows cols (rows_of db table).

(** ** A small load, to exercise the constraint checks *)

Definition sample_property_row : gmap string sql_value :=
  {[ "sg26_code" := STR "C01600010000000100000"; "erf_number" := STR "10-RE";
     "geom" := GEOM "MULTIPOLYGON(((18.4 -33.9,18.5 -33.9,18.5 -34.0,18.4 -33.9)))" ]}.

Definition sample_area_row : gmap string sql_value :=
  {[ "cba_category" := STR "CBA 2";
     "geom" := GEOM "MULTIPOLYGON(((18.4 -33.9,18.6 -33.9,18.6 -34.1,18.4 -33.9)))" ]}.

Definition sample_overlap_row (pct : Q) : gmap string sql_value :=
  {[ "property_id" := INT 1; "biodiversity_area_id" := INT 1;
     "cba_category" := STR "CBA 2"; "overlap_area_sqm" := NUM 120;
     "overlap_pct" := NUM pct ]}.

Definition load (db : database) (commands : list command) : sql database :=
  foldl (fun acc c => db' ← acc; exec_command db' c) (ok db) commands.

Definition error_of {A : Type} (r : sql A) : option sql_error :=
  match r with inl e => Some e | inr _ => None end.

(** A resolver run on a small sample: two parcels, two overlay
    polygons, and the three join rows of the pairs that intersect,
    written after the derived relation is truncated. *)
Definition sample_resolver_load : list command :=
  [ INSERT_INTO "properties"
      {[ "id" := INT 1; "sg26_code" := STR "C01600010000000100000";
         "geom" := GEOM "MULTIPOLYGON(((0 0,4 0,4 4,0 4,0 0)))" ]};
    INSERT_INTO "properties"
      {[ "id" := INT 2; "sg26_code" := STR "C01600010000000200000";
         "geom" := GEOM "MULTIPOLYGON(((10 10,12 10,12 12,10 12,10 10)))" ]};
    INSERT_INTO "biodiversity_areas"
      {[ "id" := INT 7; "cba_category" := STR "CBA 2";
         "geom" := GEOM "MULTIPOLYGON(((2 0,6 0,6 4,2 4,2 0)))" ]};
    INSERT_INTO "biodiversity_areas"
      {[ "id" := INT 8; "cba_category" := STR "ESA 1";
         "geom" := GEOM "MULTIPOLYGON(((0 0,20 0,20 20,0 20,0 0)))" ]};
    TRUNCATE "property_biodiversity";
    INSERT_INTO "property_biodiversity"
      {[ "property_id" := INT 1; "biodiversity_area_id" := INT 7;
         "cba_category" := STR "CBA 2"; "overlap_area_sqm" := NUM 8;
         "overlap_pct" := NUM 50 ]};
    INSERT_INTO "property_biodiversity"
      {[ "property_id" := INT 1; "biodiversity_area_id" := INT 8;
         "cba_category" := STR "ESA 1"; "overlap_area_sqm" := NUM 16;
         "overlap_pct" := NUM 100 ]};
    INSERT_INTO "property_biodiversity"
      {[ "property_id" := INT 2; "biodiversity_area_id" := INT 8;
         "cba_category" := STR "ESA 1"; "overlap_area_sqm" := NUM 4;
         "overlap_pct" := NUM 100 ]} ].






(** ** More invariants of the stored rows *)

(** Every stored row that carries a foreign key refers to a stored row
    of the referenced relation (or has a null in the referencing
    columns). *)
Definition respects_foreign_keys (db : database) : Prop :=
  ∀ table rel cname cols ref_table ref_cols row,
    relations (db_catalog db) !! table = Some rel →
    In (cname, ForeignKey cols ref_table ref_cols) (rel_constraints rel) →
    In row (rows_of db table) →
    references_ok db row cols ref_table ref_cols = true.

(** The rows of a relation whose column [col] holds the value [v]. *)
Definition rows_with (col : string) (v : sql_value)
    (rows : list (gmap string sql_value)) : list (gmap string sql_value) :=
  List.filter (fun r => value_matches (field r col) v) rows.

(** ** [AddressSearchBar.jsx]: the search box as a state machine *)

Module AddressSearchBar.

(** A string member of a search result: missing, null or a string. *)
Inductive js_text : Type := Absent | Null | Text (s : string).

Definition truthy_text (t : js_text) : bool :=
  match t with
  | Text s => negb (String.eqb s "")
  | _ => false
  end.

(** How a template literal prints the member. *)
Definition template (t : js_text) : string :=
  match t with
  | Absent => "undefined"
  | Null => "null"
  | Text s => s
  end.

Record result := {
  id : Z;
  full_address : js_text;
  erf_number : js_text;
  suburb : js_text
}.

(** The [useState] cells of the component. *)
Record state := {
  query : string;
  results : list result;
  isOpen : bool;
  loading : bool;
  selectedIndex : Z
}.

Definition initial : state :=
  {| query := ""; results := []; isOpen := false; loading := false;
     selectedIndex := (-1)%Z |}.

Inductive key : Type := ArrowDown | ArrowUp | Enter | Escape | OtherKey.

(** What can happen to the component: typing, the three ways [doSearch]
    ends (query shorter than two characters, response, failure), a key
    press, focus, a mouse press outside, the clear button and a click
    on the [i]-th row of the dropdown.  [clear] ends with
    [inputRef.current?.focus()]: when the input did not have the focus
    ([refocused]), this runs the focus handler of the current render
    inside [clear], before the state updates of [clear] are applied. *)
Inductive event : Type :=
  | Change (val : string)
  | SearchSkipped
  | SearchStarted
  | SearchResolved (data_results : option (list result))
  | SearchRejected
  | KeyDown (k : key)
  | Focus
  | OutsideMouseDown
  | Clear (refocused : bool)
  | ClickResult (i : nat).

(** A handler either updates the state, possibly handing a result to
    [onSelect], or throws. *)
Inductive outcome : Type :=
  | Continue (s : state) (selected : option result)
  | TypeError.

Definition dropdown_rendered (s : state) : bool :=
  isOpen s && negb (Nat.eqb (length (results s)) 0).

(** [handleSelect(result)]; reading a member of [undefined] throws. *)
Definition handleSelect (s : state) (r : option result) : outcome :=
  match r with
  | None => TypeError
  | Some res =>
    Continue {| query := if truthy_text (full_address res)
                         then template (full_address res)
                         else String.append "ERF "
                                (String.append (template (erf_number res))
                                   (String.append ", " (template (suburb res))));
                results := results s; isOpen := false; loading := loading s;
                selectedIndex := selectedIndex s |}
             (Some res)
  end.

Definition handleKeyDown (s : state) (k : key) : outcome :=
  if negb (isOpen s) then Continue s None
  else
    match k with
    | ArrowDown =>
      Continue {| query := query s; results := results s; isOpen := isOpen s;
                  loading := loading s;
                  selectedIndex := Z.min (selectedIndex s + 1)
                                         (Z.of_nat (length (results s)) - 1) |} None
    | ArrowUp =>
      Continue {| query := query s; results := results s; isOpen := isOpen s;
                  loading := loading s;
                  selectedIndex := Z.max (selectedIndex s - 1) 0 |} None
    | Enter =>
      if (0 <=? selectedIndex s)%Z
      then handleSelect s (results s !! Z.to_nat (selectedIndex s))
      else Continue s None
    | Escape =>
      Continue {| query := query s; results := results s; isOpen := false;
                  loading := loading s; selectedIndex := selectedIndex s |} None
    | OtherKey => Continue s None
    end.

Definition step (s : state) (e : event) : outcome :=
  match e with
  | Change val =>
    Continue {| query := val; results := results s; isOpen := isOpen s;
                loading := loading s; selectedIndex := selectedIndex s |} None
  | SearchSkipped =>
    Continue {| query := query s; results := []; isOpen := false;
                loading := loading s; selectedIndex := selectedIndex s |} None
  | SearchStarted =>
    Continue {| query := query s; results := results s; isOpen := isOpen s;
                loading := true; selectedIndex := selectedIndex s |} None
  | SearchResolved data_results =>
    Continue {| query := query s;
                results := default [] data_results;
                isOpen := match data_results with
                          | Some l => negb (Nat.eqb (length l) 0)
                          | None => false
                          end;
                loading := false; selectedIndex := (-1)%Z |} None
  | SearchRejected =>
    Continue {| query := query s; results := []; isOpen := isOpen s;
                loading := false; selectedIndex := selectedIndex s |} None
  | KeyDown k => handleKeyDown s k
  | Focus =>
    if negb (Nat.eqb (length (results s)) 0)
    then Continue {| query := query s; results := results s; isOpen := true;
                     loading := loading s; selectedIndex := selectedIndex s |} None
    else Continue s None
  | OutsideMouseDown =>
    if dropdown_rendered s
    then Continue {| query := query s; results := results s; isOpen := false;
                     loading := loading s; selectedIndex := selectedIndex s |} None
    else Continue s None
  | Clear refocused =>
    (* the focus handler still sees the old [results]; its
       [setIsOpen(true)] is queued after the [setIsOpen(false)] *)
    Continue {| query := ""; results := [];
                isOpen := refocused && negb (Nat.eqb (length (results s)) 0);
                loading := loading s; selectedIndex := selectedIndex s |} None
  | ClickResult i =>
    if dropdown_rendered s
    then match results s !! i with
         | Some r => handleSelect s (Some r)
         | None => Continue s None
         end
    else Continue s None
  end.

Inductive reachable : state → Prop :=
  | reachable_initial : reachable initial
  | reachable_step s e s' selected :
      reachable s → step s e = Continue s' selected → reachable s'.

(** The highlighted index is a position of the result list, or -1,
    whenever that list is not empty. *)
Definition highlight_in_range (s : state) : Prop :=
  results s = [] ∨ (-1 <= selectedIndex s < Z.of_nat (length (results s)))%Z.

Definition sample_result : result :=
  {| id := 4711; full_address := Text "37 NEIL HARE Road, ATLANTIS INDUSTRIAL";
     erf_number := Text "241"; suburb := Text "ATLANTIS INDUSTRIAL" |}.

(** The box right after a search came back with one result. *)
Definition sample_open : state :=
  {| query := ""; results := [sample_result]; isOpen := true; loading := false;
     selectedIndex := (-1)%Z |}.

End AddressSearchBar.

(** ** [useDarkMode.js] *)

Module DarkMode.

(** The initial value of the [dark] cell: a stored preference if there
    is one, else the system preference. *)
Definition initial (localStorage : gmap string string) (prefers_dark : bool) : bool :=
  match localStorage !! "capeeco-dark" with
  | Some stored => String.eqb stored "true"
  | None => prefers_dark
  end.

Record page := {
  classList : gset string;
  localStorage : gmap string string
}.

(** The effect run whenever [dark] changes: [classList.toggle('dark',
    dark)] and [setItem('capeeco-dark', dark)], which stores the boolean
    as its string. *)
Definition effect (dark : bool) (p : page) : page :=
  {| classList := if dark then {[ "dark" ]} ∪ classList p else classList p ∖ {[ "dark" ]};
     localStorage := <["capeeco-dark" := if dark then "true" else "false"]> (localStorage p) |}.

End DarkMode.

(** ** [utils/api.js] and [AuthContext.jsx]: the session token *)

Module Api.

(** [hay.includes(needle)]. *)
Fixpoint includes (needle hay : string) : bool :=
  String.prefix needle hay
  || match hay with
     | EmptyString => false
     | String _ rest => includes needle rest
     end.









End Api.

(** ** [App.jsx]: the overlay layers *)

Module Layers.

(** A layer entry; an entry made from an inherited value has no
    [label]. *)
Record layer := { active : bool; label : option string }.

(** [{ ...obj, [key]: v }]: an existing key keeps its place, a new one
    goes last. *)
Fixpoint js_set {A : Type} (obj : list (string * A)) (key : string) (v : A)
  : list (string * A) :=
  match obj with
  | [] => [(key, v)]
  | (k, x) :: rest =>
    if String.eqb k key then (k, v) :: rest else (k, x) :: js_set rest key v
  end.

Definition initial : list (string * layer) :=
  [ ("biodiversity", {| active := true; label := Some "Biodiversity (CBA/ESA)" |}) ].

(** [toggleLayer]: [{ ...prev, [key]: { ...prev[key], active:
    !prev[key].active } }].  For a key that is [undefined] in [prev]
    reading [.active] throws ([None]).  For a name of
    [Object.prototype] that is not a layer, [prev[key]] is an inherited
    value: spreading it copies nothing, its [active] is [undefined],
    and the update adds an entry [{ active: true }]. *)
Definition toggleLayer (key : string) (prev : list (string * layer))
  : option (list (string * layer)) :=
  match js_index prev key with
  | Own l => Some (js_set prev key {| active := negb (active l); label := label l |})
  | InheritedMethod _ | PrototypeObject =>
    Some (js_set prev key {| active := true; label := None |})
  | Undefined => None
  end.

(** The keys [LayerControl] renders a toggle button for. *)
Definition buttons (layers : list (string * layer)) : list string := keys layers.

(** [layers.biodiversity.active], passed to the map as [showBioLayer];
    'biodiversity' is no name of [Object.prototype], so the member is
    an own property or [undefined], and then the access throws
    ([None]). *)
Definition showBioLayer (layers : list (string * layer)) : option bool :=
  active <$> js_get layers "biodiversity".

End Layers.

(** ** Heritage records in the sidebar and in the report *)

Module Heritage.

Definition HERITAGE_CATEGORIES : list (string * string) :=
  [ ("0", "Demolished / not found");
    ("1", "Individual landmark");
    ("2", "Heritage area contributor");
    ("3", "Streetscape contributor");
    ("4", "Contextual contributor");
    ("5", "Neutral / no heritage value") ].

(** ['Not Set'] maps to [null]. *)
Definition CITY_GRADINGS : list (string * option string) :=
  [ ("I", Some "Grade I — National significance");
    ("II", Some "Grade II — Provincial significance");
    ("III", Some "Grade III — Local significance (may not be demolished without permit)");
    ("IIIA", Some "Grade IIIA — Worthy of conservation");
    ("IIIB", Some "Grade IIIB — Contributes to heritage area");
    ("IIIC", Some "Grade IIIC — Streetscape value only");
    ("Not Set", None) ].

(** The [heritage_category] member of a record: missing, [null], or
    the number of the [INTEGER] column. *)
Inductive category : Type :=
  | Absent
  | Null
  | Number (n : Z).

(** One record of [property.heritage] / [heritage.sites]; for the
    string members an absent or null member is [None]. *)
Record site := {
  site_name : option string;
  source : string;
  heritage_category : category;
  city_grading : option string
}.

(** The property key and the template text of the category member: a
    number of the [INTEGER] range prints as its decimal digits. *)
Definition category_text (c : category) : string :=
  match c with
  | Number n => pretty n
  | Null => "null"
  | Absent => "undefined"
  end.

(** What a [<div>{x}</div>] of the card shows: a text; nothing, for a
    function (React ignores a function child); or a render error, for
    an object that is no element. *)
Inductive child : Type :=
  | Text (s : string)
  | NoText
  | RenderError.

Definition child_of (m : js_member string) (fallback : string) : child :=
  match m with
  | Own l => Text (if String.eqb l "" then fallback else l)
  | Undefined => Text fallback
  | InheritedMethod _ => NoText
  | PrototypeObject => RenderError
  end.

(** [HeritageCard] of the sidebar. *)
Definition card_title (h : site) : string :=
  if truthy_str (site_name h) then default "" (site_name h)
  else if String.eqb (source h) "inventory" then "Heritage Inventory Record"
  else "NHRA Protected Site".

Definition card_tag (h : site) : string :=
  if String.eqb (source h) "nhra" then "NHRA" else "Inventory".

(** [HERITAGE_CATEGORIES[h.heritage_category] || `Category ${...}`]. *)
Definition card_category (h : site) : child :=
  child_of (js_index HERITAGE_CATEGORIES (category_text (heritage_category h)))
           (String.append "Category " (category_text (heritage_category h))).

(** [grading && <div>{grading}</div>] for
    [grading = CITY_GRADINGS[h.city_grading]]: no element for a falsy
    [grading] ([undefined], the [null] of 'Not Set'), else the element.
    An absent or null [city_grading] looks up 'undefined' or 'null',
    which the table does not have. *)
Definition card_grading (h : site) : option child :=
  match city_grading h with
  | Some g =>
    match js_index CITY_GRADINGS g with
    | Own (Some l) => if String.eqb l "" then None else Some (Text l)
    | Own None => None
    | Undefined => None
    | InheritedMethod _ => Some NoText
    | PrototypeObject => Some RenderError
    end
  | None => None
  end.

(** The heritage list of the report. *)
Definition report_title (h : site) : string :=
  if truthy_str (site_name h) then default "" (site_name h)
  else if String.eqb (source h) "nhra" then "NHRA Protected Site"
  else "Heritage Inventory Record".

Definition report_tag (h : site) : string :=
  if String.eqb (source h) "nhra" then "NHRA" else "Inventory".

(** [h.heritage_category != null && <div>Category: {...}</div>]. *)
Definition report_category (h : site) : option string :=
  match heritage_category h with
  | Number n => Some (String.append "Category: " (pretty n))
  | Null | Absent => None
  end.

Definition report_grading (h : site) : option string :=
  match city_grading h with
  | Some g =>
    if negb (String.eqb g "") && negb (String.eqb g "Not Set")
    then Some (String.append "City Grading: " g) else None
  | None => None
  end.

End Heritage.

(** ** [ScoreGauge]: the verdict under the gauge *)

Definition rating_rank (rating : string) : nat :=
  if String.eqb rating "Excellent" then 3
  else if String.eqb rating "Good" then 2
  else if String.eqb rating "Fair" then 1
  else 0.

(** The verdict a gauge prints for a score and a category maximum. *)
Definition ScoreGauge_verdict (score max : Q) : string :=
  ScoreGauge_rating (ScoreGauge_pct score max).

(** ** [InteractiveMap.jsx]: polygon styles *)

Module InteractiveMap.

(** A Leaflet path style; a colour left [undefined] is [None]. *)
Record path_style := {
  fillColor : option string;
  color : option string;
  weight : Q;
  fillOpacity : Q
}.

(** [bioStyle(feature)], by the feature's [cba_category]:
    [c = CBA_COLORS[cat] || { fill: '#9ca3af', stroke: '#6b7280' }],
    then [c.fill] and [c.stroke].  An inherited value is truthy, so the
    grey object is not used for it, and it has no [fill] or [stroke]. *)
Definition bioStyle (cat : string) : path_style :=
  match js_index CBA_COLORS cat with
  | Own c => {| fillColor := Some (fill c); color := Some (stroke c); weight := 1;
                fillOpacity := 35 # 100 |}
  | Undefined => {| fillColor := Some "#9ca3af"; color := Some "#6b7280"; weight := 1;
                    fillOpacity := 35 # 100 |}
  | InheritedMethod _ | PrototypeObject =>
    {| fillColor := None; color := None; weight := 1; fillOpacity := 35 # 100 |}
  end.

(** The tooltip of a polygon of the biodiversity layer: [c?.label || cat]
    for [c = CBA_COLORS[cat]]. *)
Definition bio_tooltip (cat : string) : string :=
  match js_index CBA_COLORS cat with
  | Own c => if String.eqb (label c) "" then cat else label c
  | InheritedMethod _ | PrototypeObject | Undefined => cat
  end.

End InteractiveMap.

(** The swatch and the text of an overlay row of the sidebar and the
    swatch of a row of the report's designation table:
    [c?.fill || '#9ca3af'] and [c?.label || category] for
    [c = CBA_COLORS[category]]; an inherited value has neither member. *)
Definition sidebar_swatch (category : string) : string :=
  match js_index CBA_COLORS category with
  | Own c => if String.eqb (fill c) "" then "#9ca3af" else fill c
  | InheritedMethod _ | PrototypeObject | Undefined => "#9ca3af"
  end.

Definition sidebar_overlay_text (category : string) : string :=
  match js_index CBA_COLORS category with
  | Own c => if String.eqb (label c) "" then category else label c
  | InheritedMethod _ | PrototypeObject | Undefined => category
  end.

Definition report_swatch (designation : string) : string :=
  match js_index CBA_COLORS designation with
  | Own c => if String.eqb (fill c) "" then "#9ca3af" else fill c
  | InheritedMethod _ | PrototypeObject | Undefined => "#9ca3af"
  end.

(** The legend of [LayerControl]: one entry per key of [CBA_COLORS]. *)
Definition legend : list (string * string) :=
  map (fun kv => (fst kv, fill (snd kv))) CBA_COLORS.

(** ** The net-zero ratio row of the sidebar *)

(** [Math.round]: the nearest integer, halves rounded up. *)
Definition Math_round (x : Q) : Z := Qfloor (x + (1 # 2)).

Definition netzero_ratio_percent (netzero_ratio : Q) : Z :=
  Math_round (netzero_ratio * 100).

Definition netzero_ratio_note (netzero_ratio : Q) : string :=
  if Qle_bool 1 netzero_ratio then "Net Zero feasible" else "Below target".

(** ** [db_migrate.sh] *)

Module DbMigrate.

Record environment := {
  PGHOST : option string;
  PGPORT : option string;
  PGUSER : option string;
  PGDATABASE : option string;
  DATABASE_URL : option string
}.

(** [${VAR:-default}]: the default also replaces an empty value. *)
Definition or_default (v : option string) (d : string) : string :=
  match v with
  | Some s => if String.eqb s "" then d else s
  | None => d
  end.

(** [${VAR:?message}]: the value, unless it is unset or empty. *)
Definition required (v : option string) : option string :=
  match v with
  | Some s => if String.eqb s "" then None else Some s
  | None => None
  end.

(** The commands the script can issue. *)
Inductive command : Type :=
  | mkdir_p (dir : string)
  | echo (text : string)
  | pg_dump_gzip (host port user db file : string)
  | gunzip_psql (file url : string)
  | python3_alembic (arguments : list string).

(** How a run ends: [exit n], or the shell gives up on a failed
    expansion or command ([set -euo pipefail]). *)
Inductive ending : Type :=
  | exit (code : nat)
  | aborted.

Record run := {
  issued : list command;
  ended : ending
}.

Definition BACKUP_DIR : string := "./backups".

Definition concat_all (parts : list string) : string := String.concat "" parts.

(** The commands of a branch, in order, when none of them fails. *)
Definition script (script_name : string) (arguments : list string) (env : environment)
    (date du : string) : run :=
  let LOCAL_HOST := or_default (PGHOST env) "localhost" in
  let LOCAL_PORT := or_default (PGPORT env) "5432" in
  let LOCAL_USER := or_default (PGUSER env) "capeeco_user" in
  let LOCAL_DB := or_default (PGDATABASE env) "capeeco" in
  let subcommand := or_default (head arguments) "help" in
  if String.eqb subcommand "export" then
    let FILENAME := concat_all [BACKUP_DIR; "/capeeco_"; date; ".sql.gz"] in
    {| issued :=
         [ mkdir_p BACKUP_DIR;
           echo (concat_all ["Exporting "; LOCAL_DB; " from "; LOCAL_HOST; ":";
                             LOCAL_PORT; "..."]);
           pg_dump_gzip LOCAL_HOST LOCAL_PORT LOCAL_USER LOCAL_DB FILENAME;
           echo (concat_all ["Exported to "; FILENAME; " ("; du; ")"]) ];
       ended := exit 0 |}
  else if String.eqb subcommand "import" then
    match required (arguments !! 1%nat) with
    | None => {| issued := []; ended := aborted |}
    | Some FILE =>
      match required (DATABASE_URL env) with
      | None => {| issued := []; ended := aborted |}
      | Some TARGET_URL =>
        {| issued :=
             [ echo (concat_all ["Importing "; FILE; " to "; TARGET_URL; "..."]);
               gunzip_psql FILE TARGET_URL;
               echo "Import complete" ];
           ended := exit 0 |}
      end
    end
  else if String.eqb subcommand "alembic" then
    {| issued := [ echo "Running Alembic migrations...";
                   python3_alembic ["upgrade"; "head"];
                   echo "Migrations applied" ];
       ended := exit 0 |}
  else if String.eqb subcommand "rollback" then
    {| issued := [ echo "Rolling back last migration...";
                   python3_alembic ["downgrade"; "-1"];
                   echo "Rollback complete" ];
       ended := exit 0 |}
  else
    {| issued := [ echo (concat_all ["Usage: "; script_name;
                                     " {export|import <file>|alembic|rollback}"]) ];
       ended := exit 1 |}.

(** The run when some commands fail: the shell stops at the first one
    that does. *)
Fixpoint until_failure (fails : command → bool) (cs : list command) : list command * bool :=
  match cs with
  | [] => ([], false)
  | c :: rest =>
    if fails c then ([c], true)
    else let '(done, failed) := until_failure fails rest in (c :: done, failed)
  end.

Definition main (fails : command → bool) (script_name : string)
    (arguments : list string) (env : environment) (date du : string) : run :=
  let planned := script script_name arguments env date du in
  let '(done, failed) := until_failure fails (issued planned) in
  {| issued := done; ended := if failed then aborted else ended planned |}.

Definition touches_database (c : command) : bool :=
  match c with
  | pg_dump_gzip _ _ _ _ _ | gunzip_psql _ _ | python3_alembic _ => true
  | mkdir_p _ | echo _ => false
  end.

End DbMigrate.

(** ** Sequences behind the [id] columns *)

(** The sequence the [id] column of a relation defaults to. *)
Definition id_sequence (rel : relation) : option string :=
  match column_named rel "id" with
  | Some c => match col_default c with
              | Some (NEXTVAL s) => Some s
              | _ => None
              end
  | None => None
  end.

(** Does inserting [r] draw a value from sequence [s]? *)
Definition draws_from (rel : relation) (r : gmap string sql_value) (s : string) : bool :=
  existsb (fun c => match r !! col_name c, col_default c with
                    | None, Some (NEXTVAL s') => String.eqb s' s
                    | _, _ => false
                    end) (rel_columns rel).

(** Two heritage records: a graded NHRA site, and an inventory record
    whose grading is a name of [Object.prototype]. *)
Definition sample_graded_site : Heritage.site :=
  {| Heritage.site_name := None; Heritage.source := "nhra";
     Heritage.heritage_category := Heritage.Number 3;
     Heritage.city_grading := Some "IIIA" |}.

Definition sample_stray_site : Heritage.site :=
  {| Heritage.site_name := None; Heritage.source := "inventory";
     Heritage.heritage_category := Heritage.Number 7;
     Heritage.city_grading := Some "constructor" |}.

(** Two parcels and their urban-edge classifications. *)
Definition sample_urban_edge_load : list command :=
  [ INSERT_INTO "properties"
      {[ "id" := INT 1; "sg26_code" := STR "C01600010000000100000";
         "geom" := GEOM "MULTIPOLYGON(((0 0,4 0,4 4,0 4,0 0)))" ]};
    INSERT_INTO "properties"
      {[ "id" := INT 2; "sg26_code" := STR "C01600010000000200000";
         "geom" := GEOM "MULTIPOLYGON(((10 10,12 10,12 12,10 12,10 10)))" ]};
    INSERT_INTO "property_urban_edge"
      {[ "property_id" := INT 1; "inside_urban_edge" := BOOL true ]};
    INSERT_INTO "property_urban_edge"
      {[ "property_id" := INT 2; "inside_urban_edge" := BOOL false ]} ].

(** * Properties *)

(** ** The status badge *)

Lemma bioStatus_badge_for property :
  bioStatus property = badge_for (first_category property).
Proof.
  destruct property as [[? ? ? ? [[|e rest]|]]|]; try reflexivity.
  cbn -[String.eqb]. destruct (cba_category e) as [| |b|q|s]; try reflexivity.
  cbn -[String.eqb].
  repeat match goal with
         | |- context [String.eqb ?a s] => destruct (String.eqb a s)
         end; reflexivity.
Qed.

Lemma badge_for_range category :
  In (badge_for category) ["no-go"; "exceptional"; "offset"; "clear"].
Proof.
  destruct category as [[| |b|q|s]|]; cbn -[String.eqb]; auto 6.
  repeat match goal with
         | |- context [String.eqb ?a s] => destruct (String.eqb a s)
         end; cbn; auto 6.
Qed.


(** C9: the badge is a total function of the category of the first
    biodiversity entry: the fixed table decides it, a missing or empty
    list and every other category value give 'clear', the result is one
    of the four statuses, for which [Badge] renders the entry of
    [BIO_STATUS] under that key, and later entries never matter. *)
Theorem bioStatus_total_on_first_entry :
  (∀ property, bioStatus property = badge_for (first_category property))
  ∧ (∀ property, In (bioStatus property) ["no-go"; "exceptional"; "offset"; "clear"])
  ∧ (∀ property, ∃ s, js_get BIO_STATUS (bioStatus property) = Some s
                      ∧ Badge (bioStatus property) = Own s)
  ∧ (∀ e rest rest',
       bioStatus (with_biodiversity (e :: rest)) = bioStatus (with_biodiversity (e :: rest')))
  ∧ bioStatus None = "clear"
  ∧ bioStatus (with_biodiversity []) = "clear"
  ∧ (∀ p, biodiversity p = None → bioStatus (Some p) = "clear")
  ∧ map (fun c => bioStatus (with_biodiversity [entry_of (JStr (cba_label c))])) all_cba
    = ["no-go"; "no-go"; "no-go"; "exceptional"; "exceptional";
       "offset"; "offset"; "offset"; "clear"].
Proof.
  split; [exact bioStatus_badge_for|].
  split; [intros; rewrite bioStatus_badge_for; apply badge_for_range|].
  split.
  { intros property. pose proof (badge_for_range (first_category property)) as Hin.
    rewrite bioStatus_badge_for. cbn in Hin.
    destruct Hin as [<-|[<-|[<-|[<-|[]]]]]; eexists; split; reflexivity. }
  split; [intros; rewrite !bioStatus_badge_for; reflexivity|].
  split; [reflexivity|]. split; [reflexivity|].
  split; [|reflexivity].
  intros [? ? ? ? bio] Hb. cbn in Hb. subst bio. reflexivity.
Qed.

Lemma bioStatus_total_on_first_entry_witness :
  bioStatus (Some {| erf_number := Some "10-RE"; suburb := None; area_sqm := None;
                     inside_urban_edge := Some true; biodiversity := None |}) = "clear"
  ∧ bioStatus (with_biodiversity [entry_of (JStr "CBA 1b"); entry_of (JStr "PA")])
    = bioStatus (with_biodiversity [entry_of (JStr "CBA 1b")]).
Proof.
  destruct bioStatus_total_on_first_entry as (_ & _ & _ & Hrest & _ & _ & Hmissing & _).
  split.
  - apply Hmissing. reflexivity.
  - apply Hrest.
Defined.

(** ** No-go designations *)



Lemma first_category_single c :
  first_category (with_biodiversity [entry_of c]) = Some c.
Proof. reflexivity. Qed.



(** ** The cost estimate row *)

Lemma shows_app label (xs ys : list row) :
  shows label (xs ++ ys) = shows label xs || shows label ys.
Proof. unfold shows. apply existsb_app. Qed.










(** ** Score bars and gauges *)

Lemma fill_le_100 x : (Qmin x 100 <= 100)%Q.
Proof. apply Q.le_min_r. Qed.

Lemma ratio_ge_1 score max : (0 < max)%Q → (max <= score)%Q → (100 <= score / max * 100)%Q.
Proof.
  intros Hmax Hle.
  assert (H1 : (1 <= score / max)%Q).
  { apply Qle_shift_div_l; [exact Hmax|]. rewrite Qmult_1_l. exact Hle. }
  lra.
Qed.

Lemma ratio_le_1 score max : (0 < max)%Q → (score <= max)%Q → (score / max * 100 <= 100)%Q.
Proof.
  intros Hmax Hle.
  assert (H1 : (score / max <= 1)%Q).
  { apply Qle_shift_div_r; [exact Hmax|]. rewrite Qmult_1_l. exact Hle. }
  lra.
Qed.

Lemma ScoreGauge_pct_pos score max :
  (0 < max)%Q → ScoreGauge_pct score max = Qmin (score / max * 100) 100.
Proof.
  intros Hmax. unfold ScoreGauge_pct.
  destruct (Qlt_le_dec 0 max) as [_|Hle]; [reflexivity|].
  exfalso. apply (Qlt_not_le _ _ Hmax Hle).
Qed.

(** C10: with a positive category maximum both widgets fill
    min(score / max * 100, 100), which never exceeds 100, saturates at
    100 once the score reaches the maximum and is the plain percentage
    below it; the report gauge fills 0 for a maximum of 0. *)
Theorem score_fill_capped :
  ∀ score max,
    (0 < max)%Q →
    (ScoreBar_pct score max == Qmin (score / max * 100) 100)%Q
    ∧ (ScoreGauge_pct score max == Qmin (score / max * 100) 100)%Q
    ∧ (ScoreBar_pct score max <= 100)%Q
    ∧ (ScoreGauge_pct score max <= 100)%Q
    ∧ ((max <= score)%Q →
       (ScoreBar_pct score max == 100)%Q ∧ (ScoreGauge_pct score max == 100)%Q)
    ∧ ((score <= max)%Q →
       (ScoreBar_pct score max == score / max * 100)%Q
       ∧ (ScoreGauge_pct score max == score / max * 100)%Q)
    ∧ (ScoreGauge_pct score 0 == 0)%Q.
Proof.
  intros score max Hmax.
  rewrite (ScoreGauge_pct_pos score max Hmax). unfold ScoreBar_pct.
  repeat split; try reflexivity; try apply fill_le_100.
  - apply Q.min_r, ratio_ge_1; assumption.
  - apply Q.min_r, ratio_ge_1; assumption.
  - apply Q.min_l, ratio_le_1; assumption.
  - apply Q.min_l, ratio_le_1; assumption.
Qed.

Lemma score_fill_capped_witness :
  (0 < 35)%Q
  ∧ (ScoreBar_pct 40 35 <= 100)%Q
  ∧ (ScoreGauge_pct 40 35 <= 100)%Q
  ∧ (ScoreGauge_pct 40 0 == 0)%Q.
Proof.
  assert (Hmax : (0 < 35)%Q) by reflexivity.
  destruct (score_fill_capped 40 35 Hmax) as (_ & _ & Hbar & Hgauge & _ & _ & Hzero).
  repeat split; assumption.
Defined.

(** ** The scorecard *)

Lemma rating_band_known th total :
  In (Scorecard.rating_band th total) (keys GREENSTAR_COLORS).
Proof.
  unfold Scorecard.rating_band.
  repeat match goal with
         | |- context [Qle_bool ?a ?b] => destruct (Qle_bool a b)
         end; cbn; auto 6.
Qed.

Lemma Qle_bool_false a b : (b < a)%Q → Qle_bool a b = false.
Proof.
  intros Hlt. destruct (Qle_bool a b) eqn:Hle; [|reflexivity].
  apply Qle_bool_iff in Hle. exfalso. apply (Qlt_not_le _ _ Hlt Hle).
Qed.

(** C7: both views render the same five categories, in the same order,
    with maxima 35, 25, 20, 10 and 10, which add up to the 100 the total
    is shown against; the rating table runs from '6-star' down to
    'Below rated', and every band the total is mapped to is one of its
    keys: '6-star' from the highest threshold up, 'Below rated' below
    the lowest. *)
Theorem scorecard_five_categories :
  (∀ s, map sw_max (sidebar_score_bars s) = [35; 25; 20; 10; 10]%Q
        ∧ map sw_label (sidebar_score_bars s)
          = ["Energy"; "Water"; "Ecology"; "Location"; "Materials"]
        ∧ map sw_score (sidebar_score_bars s)
          = [energy s; water s; ecology s; location s; materials_innovation s])
  ∧ (∀ s, report_score_gauges s = sidebar_score_bars s)
  ∧ (∀ s, length (sidebar_score_bars s) = 5 ∧ length (report_score_gauges s) = 5)
  ∧ (∀ s, map sw_max (sidebar_score_bars s)
          = map sw_score (sidebar_score_bars Scorecard.maxima))
  ∧ (Scorecard.total_of Scorecard.maxima == total_score_out_of)%Q
  ∧ keys GREENSTAR_COLORS = ["6-star"; "5-star"; "4-star"; "3-star"; "Below rated"]
  ∧ (∀ th total, In (Scorecard.rating_band th total) (keys GREENSTAR_COLORS))
  ∧ (∀ th total, is_Some (js_get GREENSTAR_COLORS (Scorecard.rating_band th total)))
  ∧ (∀ th total, (Scorecard.six_star th <= total)%Q →
                 Scorecard.rating_band th total = "6-star")
  ∧ (∀ th total, Scorecard.descending th → (total < Scorecard.three_star th)%Q →
                 Scorecard.rating_band th total = "Below rated").
Proof.
  split; [intros s; repeat split; reflexivity|].
  split; [reflexivity|].
  split; [intros s; split; reflexivity|].
  split; [reflexivity|].
  split; [reflexivity|].
  split; [reflexivity|].
  split; [exact rating_band_known|].
  split.
  { intros th total. pose proof (rating_band_known th total) as Hin. cbn in Hin.
    destruct Hin as [<-|[<-|[<-|[<-|[<-|[]]]]]]; eexists; reflexivity. }
  split.
  - intros th total Hle. unfold Scorecard.rating_band.
    apply Qle_bool_iff in Hle. rewrite Hle. reflexivity.
  - intros th total (H34 & H45 & H56) Hlt. unfold Scorecard.rating_band.
    rewrite !Qle_bool_false; [reflexivity|lra..].
Qed.

Lemma scorecard_five_categories_witness :
  Scorecard.rating_band
    {| Scorecard.six_star := 75; Scorecard.five_star := 60;
       Scorecard.four_star := 45; Scorecard.three_star := 30 |} 80 = "6-star"
  ∧ Scorecard.rating_band
      {| Scorecard.six_star := 75; Scorecard.five_star := 60;
         Scorecard.four_star := 45; Scorecard.three_star := 30 |} 12 = "Below rated".
Proof.
  pose proof scorecard_five_categories as (_ & _ & _ & _ & _ & _ & _ & _ & Htop & Hlow).
  split.
  - apply Htop. cbn. unfold Qle. cbn. lia.
  - apply Hlow.
    + unfold Scorecard.descending. cbn. unfold Qle. cbn. lia.
    + cbn. unfold Qlt. cbn. lia.
Defined.

(** ** The severity order *)

Section Precedes.
Variable l : list string.

Lemma index_of_lookup x i : index_of x l = Some i → l !! i = Some x.
Proof.
  revert i. induction l as [|y rest IH]; intros i; cbn; [discriminate|].
  destruct (String.eqb_spec y x) as [->|Hne].
  - intros [= <-]. reflexivity.
  - destruct (index_of x rest) as [j|]; cbn; [|discriminate].
    intros [= <-]. cbn. apply IH. reflexivity.
Qed.

Lemma index_of_member x : In x l → is_Some (index_of x l).
Proof.
  induction l as [|y rest IH]; cbn; [intros []|].
  intros [->|Hin].
  - rewrite String.eqb_refl. eexists; reflexivity.
  - destruct (String.eqb y x); [eexists; reflexivity|].
    destruct (IH Hin) as [j ->]. eexists; reflexivity.
Qed.

Lemma index_of_inj a b i : index_of a l = Some i → index_of b l = Some i → a = b.
Proof.
  intros Ha Hb. apply index_of_lookup in Ha, Hb. congruence.
Qed.

Lemma precedes_irrefl a : precedes l a a = false.
Proof.
  unfold precedes. destruct (index_of a l); [apply Nat.ltb_irrefl | reflexivity].
Qed.

Lemma precedes_trans a b c :
  precedes l a b = true → precedes l b c = true → precedes l a c = true.
Proof.
  unfold precedes.
  destruct (index_of a l) as [i|], (index_of b l) as [j|], (index_of c l) as [k|];
    try discriminate.
  rewrite !Nat.ltb_lt. lia.
Qed.

Lemma precedes_asym a b : precedes l a b = true → precedes l b a = false.
Proof.
  unfold precedes.
  destruct (index_of a l) as [i|], (index_of b l) as [j|]; try discriminate.
  rewrite Nat.ltb_lt, Nat.ltb_ge. lia.
Qed.

Lemma precedes_total a b :
  In a l → In b l → a ≠ b → precedes l a b = true ∨ precedes l b a = true.
Proof.
  intros Ha Hb Hne.
  destruct (index_of_member a Ha) as [i Hi], (index_of_member b Hb) as [j Hj].
  unfold precedes. rewrite Hi, Hj, !Nat.ltb_lt.
  destruct (Nat.lt_total i j) as [Hlt|[Heq|Hgt]]; [auto| |auto].
  subst j. destruct Hne. exact (index_of_inj a b i Hi Hj).
Qed.

Lemma precedes_members a b : precedes l a b = true → In a l ∧ In b l.
Proof.
  unfold precedes.
  destruct (index_of a l) as [i|] eqn:Hi, (index_of b l) as [j|] eqn:Hj;
    try discriminate.
  intros _. apply index_of_lookup in Hi, Hj.
  split; apply list_elem_of_In; eapply list_elem_of_lookup_2; eassumption.
Qed.
End Precedes.

(** C2: the severity order PA > CA > CBA 1a > CBA 1b > CBA 1c > CBA 2 >
    ESA 1 > ESA 2 > ONA is irreflexive, transitive, asymmetric and total
    on the nine categories, each category is more severe than the next
    one of the list, and the order coincides with the declaration order
    of the [cba_category] enum and with the key order of [CBA_COLORS]. *)
Theorem severity_strict_total_order :
  enums schema_catalog !! "cba_category" = Some severity_order
  ∧ keys CBA_COLORS = severity_order
  ∧ map cba_label all_cba = severity_order
  ∧ (∀ a b, more_severe a b = enum_before schema_catalog "cba_category" a b)
  ∧ (∀ a b, more_severe a b = precedes (keys CBA_COLORS) a b)
  ∧ (∀ a, more_severe a a = false)
  ∧ (∀ a b c, more_severe a b = true → more_severe b c = true → more_severe a c = true)
  ∧ (∀ a b, more_severe a b = true → more_severe b a = false)
  ∧ (∀ a b, In a severity_order → In b severity_order → a ≠ b →
            more_severe a b = true ∨ more_severe b a = true)
  ∧ (∀ a b, more_severe a b = true → In a severity_order ∧ In b severity_order)
  ∧ (∀ a b, In (a, b) (zip severity_order (tail severity_order)) →
            more_severe a b = true).
Proof.
  assert (Henum : enums schema_catalog !! "cba_category" = Some severity_order)
    by (vm_compute; reflexivity).
  split; [exact Henum|]. split; [reflexivity|]. split; [reflexivity|].
  split; [intros a b; unfold enum_before; rewrite Henum; reflexivity|].
  split; [reflexivity|].
  split; [exact (precedes_irrefl severity_order)|].
  split; [exact (precedes_trans severity_order)|].
  split; [exact (precedes_asym severity_order)|].
  split; [exact (precedes_total severity_order)|].
  split; [exact (precedes_members severity_order)|].
  intros a b Hin. cbn in Hin.
  repeat (destruct Hin as [[= <- <-]|Hin]; [reflexivity|]).
  destruct Hin.
Qed.

Lemma severity_strict_total_order_witness :
  more_severe "PA" "ONA" = true
  ∧ more_severe "ONA" "PA" = false
  ∧ (more_severe "CBA 2" "ESA 1" = true ∨ more_severe "ESA 1" "CBA 2" = true).
Proof.
  pose proof severity_strict_total_order
    as (_ & _ & _ & _ & _ & _ & Htrans & Hasym & Htotal & _ & _).
  assert (H1 : more_severe "PA" "CBA 2" = true) by reflexivity.
  assert (H2 : more_severe "CBA 2" "ONA" = true) by reflexivity.
  split; [exact (Htrans _ _ _ H1 H2)|].
  split; [exact (Hasym _ _ (Htrans _ _ _ H1 H2))|].
  apply Htotal; [cbn; auto 10 | cbn; auto 10 | discriminate].
Defined.

(** ** Schema setup *)

Lemma schema_sql_runs : exec_script empty_catalog schema_sql = inr schema_catalog.
Proof. vm_compute. reflexivity. Qed.

Lemma like_never_copies_foreign_keys table src :
  has_foreign_key (like_including_all table src) = false.
Proof.
  unfold has_foreign_key, like_including_all, like_constraints. cbn.
  induction (rel_constraints src) as [|[n tc] rest IH]; [reflexivity|].
  destruct tc; cbn; exact IH.
Qed.

Lemma drop_constraint_columns name r :
  rel_columns (drop_constraint name r) = rel_columns r.
Proof. reflexivity. Qed.

(** C4: after schema setup every staging relation has the columns of
    the production relation it copies (names, types, [NOT NULL] markers
    and defaults) and carries no primary-key, no unique and no
    foreign-key constraint, while the production relation keeps its
    primary key. *)
Theorem staging_relations_unconstrained :
  ∀ staging production,
    In (staging, production) staging_tables →
    ∃ rs rp,
      relations schema_catalog !! staging = Some rs
      ∧ relations schema_catalog !! production = Some rp
      ∧ rel_columns rs = rel_columns rp
      ∧ rel_constraints rs = []
      ∧ has_primary_key rs = false
      ∧ has_unique rs = false
      ∧ has_foreign_key rs = false
      ∧ has_primary_key rp = true.
Proof.
  intros staging production Hin. cbn in Hin.
  repeat (destruct Hin as [[= <- <-]|Hin];
          [eexists; eexists; split; [vm_compute; reflexivity|];
           split; [vm_compute; reflexivity|]; repeat split; reflexivity|]).
  destruct Hin.
Qed.

Lemma staging_relations_unconstrained_witness :
  ∃ rs rp,
    relations schema_catalog !! "staging_properties" = Some rs
    ∧ relations schema_catalog !! "properties" = Some rp
    ∧ rel_columns rs = rel_columns rp
    ∧ rel_constraints rs = []
    ∧ has_primary_key rs = false
    ∧ has_unique rs = false
    ∧ has_foreign_key rs = false
    ∧ has_primary_key rp = true.
Proof.
  apply (staging_relations_unconstrained "staging_properties" "properties").
  cbn. left. reflexivity.
Defined.

(** ** Rows: what an accepted insert guarantees *)

Lemma complete_field seqs rel r name :
  field (complete seqs rel r) name
  = match column_named rel name with
    | Some c => value_in seqs r c
    | None => NULL
    end.
Proof.
  unfold complete, column_named, field.
  induction (rel_columns rel) as [|c cols IH]; cbn; [rewrite lookup_empty; reflexivity|].
  destruct (String.eqb_spec (col_name c) name) as [<-|Hne].
  - rewrite lookup_insert_eq. reflexivity.
  - rewrite lookup_insert_ne by exact Hne. exact IH.
Qed.

Lemma insert_row_inv db table r db' :
  insert_row db table r = inr db' →
  ∃ rel,
    relations (db_catalog db) !! table = Some rel
    ∧ null_violation (db_sequences db) rel r = None
    ∧ unique_violation rel (rows_of db table) (complete (db_sequences db) rel r) = None
    ∧ db_catalog db' = db_catalog db
    ∧ db_rows db'
      = <[table := complete (db_sequences db) rel r :: rows_of db table]> (db_rows db).
Proof.
  unfold insert_row.
  destruct (relations (db_catalog db) !! table) as [rel|]; [|discriminate].
  destruct (undefined_column rel r); [discriminate|].
  destruct (null_violation _ rel r) eqn:Hnull; [discriminate|].
  destruct (unique_violation rel _ _) eqn:Huniq; [discriminate|].
  destruct (foreign_key_violation db rel _); [discriminate|].
  intros [= <-]. exists rel. cbn. auto.
Qed.

Lemma truncate_inv db table db' :
  truncate db table = inr db' →
  db_catalog db' = db_catalog db ∧ db_rows db' = <[table := []]> (db_rows db).
Proof.
  unfold truncate.
  destruct (relations (db_catalog db) !! table); [|discriminate].
  destruct (referenced (db_catalog db) table); [discriminate|].
  intros [= <-]. cbn. auto.
Qed.

Lemma exec_command_catalog db c db' :
  exec_command db c = inr db' → db_catalog db' = db_catalog db.
Proof.
  destruct c as [table r|table]; cbn; intros Hexec.
  - apply insert_row_inv in Hexec as (rel & _ & _ & _ & Hcat & _). exact Hcat.
  - apply truncate_inv in Hexec as [Hcat _]. exact Hcat.
Qed.

Lemma reachable_catalog db : reachable db → db_catalog db = schema_catalog.
Proof.
  induction 1 as [|db c db' _ IH Hexec]; [reflexivity|].
  rewrite (exec_command_catalog _ _ _ Hexec). exact IH.
Qed.

Lemma load_reachable commands db db' :
  reachable db → load db commands = inr db' → reachable db'.
Proof.
  unfold load. revert db db'.
  induction commands as [|c rest IH] using rev_ind; intros db db' Hreach.
  - cbn. intros [= <-]. exact Hreach.
  - rewrite foldl_app. cbn.
    destruct (foldl _ (ok db) rest) as [e|mid] eqn:Hmid; [discriminate|].
    cbn. intros Hexec. eapply reachable_step; [|exact Hexec].
    apply (IH db mid Hreach). exact Hmid.
Qed.

Lemma rows_of_insert db db' t t' new :
  db_rows db' = <[t := new]> (db_rows db) →
  rows_of db' t' = if decide (t = t') then new else rows_of db t'.
Proof.
  intros Hrows. unfold rows_of. rewrite Hrows.
  destruct (decide (t = t')) as [<-|Hne].
  - rewrite lookup_insert_eq. reflexivity.
  - rewrite lookup_insert_ne by exact Hne. reflexivity.
Qed.

Lemma accepted_row_not_null seqs rel r name :
  null_violation seqs rel r = None →
  not_null_column rel name = true →
  is_null (field (complete seqs rel r) name) = false.
Proof.
  unfold null_violation, not_null_column. intros Hnull Hnn.
  rewrite complete_field.
  destruct (column_named rel name) as [c|] eqn:Hc; [|discriminate].
  destruct (find _ (rel_columns rel)) as [v|] eqn:Hfind; [discriminate|].
  apply find_some in Hc as [Hin _].
  pose proof (find_none _ _ Hfind c Hin) as Hcheck. cbn in Hcheck.
  rewrite Hnn in Hcheck. exact Hcheck.
Qed.

Lemma null_rejected seqs rel r name :
  not_null_column rel name = true →
  without_default rel name = true →
  is_null (field r name) = true →
  is_Some (null_violation seqs rel r).
Proof.
  unfold null_violation, not_null_column, without_default, column_named.
  intros Hnn Hnd Hnull.
  destruct (find (fun c => String.eqb (col_name c) name) (rel_columns rel))
    as [c|] eqn:Hc; [|discriminate].
  apply find_some in Hc as [Hin Hname]. apply String.eqb_eq in Hname.
  destruct (find (fun c => col_not_null c && is_null (value_in seqs r c)) (rel_columns rel))
    as [v|] eqn:Hfind; [eexists; reflexivity|].
  pose proof (find_none _ _ Hfind c Hin) as Hcheck. cbn in Hcheck.
  rewrite Hnn in Hcheck. cbn in Hcheck.
  unfold value_in, field in *. rewrite Hname in Hcheck.
  destruct (r !! name) as [v|]; cbn in *; [congruence|].
  destruct (col_default c); [discriminate | cbn in Hcheck; discriminate].
Qed.

Lemma accepted_row_unique rel rows new cname tc cols :
  unique_violation rel rows new = None →
  In (cname, tc) (rel_constraints rel) →
  unique_columns tc = Some cols →
  Forall (fun old => key_match cols new old = false) rows.
Proof.
  unfold unique_violation. intros Huniq Hin Hcols.
  destruct (find _ (rel_constraints rel)) as [v|] eqn:Hfind; [discriminate|].
  pose proof (find_none _ _ Hfind _ Hin) as Hcheck. cbn in Hcheck.
  rewrite Hcols in Hcheck.
  apply Forall_forall. intros old Hold.
  destruct (key_match cols new old) eqn:Hm; [|reflexivity].
  assert (Hex : existsb (key_match cols new) rows = true).
  { apply existsb_exists. exists old. split; [|exact Hm].
    apply list_elem_of_In. exact Hold. }
  congruence.
Qed.

Lemma exec_command_respects_not_null db c db' :
  respects_not_null db → exec_command db c = inr db' → respects_not_null db'.
Proof.
  intros Hinv Hexec table rel name row Hrel Hnn Hrow.
  rewrite (exec_command_catalog _ _ _ Hexec) in Hrel.
  destruct c as [t r|t]; cbn in Hexec.
  - apply insert_row_inv in Hexec as (rel' & Hrel' & Hnull & _ & _ & Hrows).
    rewrite (rows_of_insert _ _ _ table _ Hrows) in Hrow.
    destruct (decide (t = table)) as [->|Hne]; [|eapply Hinv; eassumption].
    assert (rel' = rel) as -> by congruence.
    destruct Hrow as [<-|Hold]; [|eapply Hinv; eassumption].
    apply accepted_row_not_null; assumption.
  - apply truncate_inv in Hexec as [_ Hrows].
    rewrite (rows_of_insert _ _ _ table _ Hrows) in Hrow.
    destruct (decide (t = table)); [destruct Hrow | eapply Hinv; eassumption].
Qed.

Lemma exec_command_respects_unique db c db' :
  respects_unique db → exec_command db c = inr db' → respects_unique db'.
Proof.
  intros Hinv Hexec table rel cname tc cols Hrel Hin Hcols.
  rewrite (exec_command_catalog _ _ _ Hexec) in Hrel.
  destruct c as [t r|t]; cbn in Hexec.
  - apply insert_row_inv in Hexec as (rel' & Hrel' & _ & Huniq & _ & Hrows).
    rewrite (rows_of_insert _ _ _ table _ Hrows).
    destruct (decide (t = table)) as [->|Hne]; [|eapply Hinv; eassumption].
    assert (rel' = rel) as -> by congruence.
    cbn. split; [|eapply Hinv; eassumption].
    eapply accepted_row_unique; eassumption.
  - apply truncate_inv in Hexec as [_ Hrows].
    rewrite (rows_of_insert _ _ _ table _ Hrows).
    destruct (decide (t = table)); [exact I | eapply Hinv; eassumption].
Qed.

Lemma reachable_respects db : reachable db → respects_not_null db ∧ respects_unique db.
Proof.
  induction 1 as [|db c db' _ [IHn IHu] Hexec].
  - split.
    + intros table rel name row _ _ Hrow. destruct Hrow.
    + intros table rel cname tc cols _ _ _. exact I.
  - split.
    + eapply exec_command_respects_not_null; eassumption.
    + eapply exec_command_respects_unique; eassumption.
Qed.

(** ** Staging and null geometries *)

Lemma staging_geom_not_null staging production :
  In (staging, production) staging_tables →
  ∃ rs, relations schema_catalog !! staging = Some rs
        ∧ not_null_column rs "geom" = true
        ∧ without_default rs "geom" = true.
Proof.
  intros Hin. cbn in Hin.
  repeat (destruct Hin as [[= <- <-]|Hin];
          [eexists; split; [vm_compute; reflexivity|]; split; reflexivity|]).
  destruct Hin.
Qed.

Lemma filter_partition_length {A : Type} (f : A → bool) (l : list A) :
  length (List.filter f l) + length (List.filter (fun x => negb (f x)) l) = length l.
Proof.
  induction l as [|x l IH]; [reflexivity|].
  cbn. destruct (f x); cbn; lia.
Qed.

Lemma filter_none {A : Type} (f : A → bool) (l : list A) :
  (∀ x, In x l → f x = false) → List.filter f l = [].
Proof.
  induction l as [|x l IH]; [reflexivity|]. intros Hall. cbn.
  rewrite (Hall x) by (left; reflexivity).
  apply IH. intros y Hy. apply Hall. right. exact Hy.
Qed.

(** C5 (amended): a row whose geometry is null cannot exist in a
    staging relation: the [geom] column keeps the [NOT NULL] marker it
    copies from production, so staging such a row is rejected and every
    staged row has a geometry; at promotion the rows without a valid
    geometry are dropped and counted (kept and dropped rows add up to
    the staged rows), and none of them is a null-geometry row. *)
Theorem staged_rows_have_geometry :
  ∀ db staging production,
    reachable db →
    In (staging, production) staging_tables →
    (∀ r db', is_null (field r "geom") = true → insert_row db staging r ≠ inr db')
    ∧ (∀ row, In row (rows_of db staging) → is_null (field row "geom") = false)
    ∧ (∀ valid,
         let o := Promotion.reject_null_geometry valid (rows_of db staging) in
         length (Promotion.kept o) + Promotion.dropped o = length (rows_of db staging)
         ∧ (∀ row, In row (Promotion.kept o) → Promotion.has_geometry valid row = true)
         ∧ Promotion.null_geometries (rows_of db staging) = 0).
Proof.
  intros db staging production Hreach Hin.
  destruct (staging_geom_not_null _ _ Hin) as (rs & Hrs & Hnn & Hnd).
  pose proof (reachable_catalog db Hreach) as Hcat.
  assert (Hrows : ∀ row, In row (rows_of db staging) → is_null (field row "geom") = false).
  { intros row Hrow. destruct (reachable_respects db Hreach) as [Hinv _].
    apply (Hinv staging rs "geom" row); [rewrite Hcat; exact Hrs | exact Hnn | exact Hrow]. }
  split; [|split; [exact Hrows|]].
  - intros r db' Hnull Hins.
    apply insert_row_inv in Hins as (rel & Hrel & Hcheck & _).
    rewrite Hcat, Hrs in Hrel. injection Hrel as <-.
    destruct (null_rejected (db_sequences db) rs r "geom" Hnn Hnd Hnull) as [c Hc].
    congruence.
  - intros valid o. subst o. cbn. split; [|split].
    + apply filter_partition_length.
    + intros row Hrow. apply filter_In in Hrow as [_ Hgeo]. exact Hgeo.
    + unfold Promotion.null_geometries. rewrite filter_none; [reflexivity | exact Hrows].
Qed.

Lemma staged_rows_have_geometry_witness :
  (∀ db', insert_row initial_db "staging_properties" row_without_geometry ≠ inr db')
  ∧ Promotion.null_geometries (rows_of initial_db "staging_properties") = 0.
Proof.
  assert (Hin : In ("staging_properties", "properties") staging_tables)
    by (cbn; left; reflexivity).
  destruct (staged_rows_have_geometry initial_db "staging_properties" "properties"
              reachable_initial Hin) as (Hreject & _ & Hpromote).
  split.
  - intros db'. apply Hreject. vm_compute. reflexivity.
  - exact (proj2 (proj2 (Hpromote (fun _ => true)))).
Defined.

(** C5, as first stated, fails on the schema: staging a parcel row with
    a null geometry right after schema setup is refused with a
    [NOT NULL] violation on [geom], so the row never reaches the
    promotion step. *)
Lemma null_geometry_refused_by_staging :
  is_null (field row_without_geometry "geom") = true
  ∧ insert_row initial_db "staging_properties" row_without_geometry
    = inl (NotNullViolation "staging_properties" "geom").
Proof. split; vm_compute; reflexivity. Qed.

(** ** Derived join relations *)



Lemma join_relation_keys :
  (∃ rel, relations schema_catalog !! "property_biodiversity" = Some rel
          ∧ In ("property_biodiversity_property_id_biodiversity_area_id_key",
                Unique ["property_id"; "biodiversity_area_id"]) (rel_constraints rel))
  ∧ (∃ rel, relations schema_catalog !! "property_ecosystems" = Some rel
            ∧ In ("property_ecosystems_property_id_ecosystem_type_id_key",
                  Unique ["property_id"; "ecosystem_type_id"]) (rel_constraints rel)).
Proof.
  split; (eexists; split; [vm_compute; reflexivity|]);
    cbn; do 3 right; left; reflexivity.
Qed.








(** ** Worked examples *)

(** The scenario of the specification: 500 square metres inside CBA 2
    with base ratio 3, condition multiplier 1.2 and no urban-edge
    surcharge need 0.18 ha. *)
Example offset_scenario_cba2 :
  option_map Qred
    (OffsetEngine.result_required
       (OffsetEngine.calculate_offset sample_configuration sample_parcel 500 CBA_2))
  = Some (9 # 50)%Q.
Proof. vm_compute. reflexivity. Qed.

(** A base ratio of zero is "no offset required", with no cost. *)
Example offset_scenario_ona :
  OffsetEngine.result_cost
    (OffsetEngine.calculate_offset sample_configuration sample_parcel 500 ONA) = None
  ∧ option_map Qred
      (OffsetEngine.result_required
         (OffsetEngine.calculate_offset sample_configuration sample_parcel 500 ONA))
    = Some 0%Q.
Proof. vm_compute. split; reflexivity. Qed.

(** A second row for the same (property, overlay) pair is refused. *)
Example duplicate_pair_refused :
  error_of (load initial_db
              [ INSERT_INTO "properties" sample_property_row;
                INSERT_INTO "biodiversity_areas" sample_area_row;
                INSERT_INTO "property_biodiversity" (sample_overlap_row 40);
                INSERT_INTO "property_biodiversity" (sample_overlap_row 60) ])
  = Some (UniqueViolation "property_biodiversity_property_id_biodiversity_area_id_key").
Proof. vm_compute. reflexivity. Qed.

(** The join rows of the sample run are accepted by
    [property_biodiversity], three rows in all. *)
Example resolver_rows_load :
  match load initial_db sample_resolver_load with
  | inr db => length (rows_of db "property_biodiversity") = 3
  | inl _ => False
  end.
Proof. vm_compute. reflexivity. Qed.

(** * Further properties of the schema *)

(** ** Referential integrity *)

Lemma insert_row_checks_references db table r db' :
  insert_row db table r = inr db' →
  ∃ rel,
    relations (db_catalog db) !! table = Some rel
    ∧ foreign_key_violation db rel (complete (db_sequences db) rel r) = None.
Proof.
  unfold insert_row.
  destruct (relations (db_catalog db) !! table) as [rel|]; [|discriminate].
  destruct (undefined_column rel r); [discriminate|].
  destruct (null_violation _ rel r); [discriminate|].
  destruct (unique_violation rel _ _); [discriminate|].
  destruct (foreign_key_violation db rel _) eqn:Hfk; [discriminate|].
  intros _. exists rel. auto.
Qed.

Lemma references_ok_mono db db' row cols ref_table ref_cols :
  (∀ target, In target (rows_of db ref_table) → In target (rows_of db' ref_table)) →
  references_ok db row cols ref_table ref_cols = true →
  references_ok db' row cols ref_table ref_cols = true.
Proof.
  unfold references_ok. intros Hsub Hok.
  apply orb_true_iff in Hok as [Hnull|Hex]; apply orb_true_iff; [left; exact Hnull|].
  right. apply existsb_exists in Hex as (target & Hin & Hmatch).
  apply existsb_exists. exists target. split; [apply Hsub; exact Hin | exact Hmatch].
Qed.

Lemma referenced_by table rel cname cols ref_table ref_cols (c : catalog) :
  relations c !! table = Some rel →
  In (cname, ForeignKey cols ref_table ref_cols) (rel_constraints rel) →
  referenced c ref_table = true.
Proof.
  intros Hrel Hin. unfold referenced. apply existsb_exists.
  exists (table, rel). split.
  - apply list_elem_of_In, elem_of_map_to_list. exact Hrel.
  - cbn. apply existsb_exists. exists (cname, ForeignKey cols ref_table ref_cols).
    split; [exact Hin|]. cbn. apply String.eqb_refl.
Qed.

Lemma exec_command_respects_foreign_keys db c db' :
  respects_foreign_keys db → exec_command db c = inr db' → respects_foreign_keys db'.
Proof.
  intros Hinv Hexec table rel cname cols rt rcols row Hrel Hin Hrow.
  rewrite (exec_command_catalog _ _ _ Hexec) in Hrel.
  destruct c as [t r|t]; cbn in Hexec.
  - destruct (insert_row_checks_references _ _ _ _ Hexec) as (rel0 & Hrel0 & Hfk).
    apply insert_row_inv in Hexec as (rel' & Hrel' & _ & _ & _ & Hrows).
    assert (rel0 = rel') as -> by congruence.
    assert (Hgrow : ∀ tbl target, In target (rows_of db tbl) → In target (rows_of db' tbl)).
    { intros tbl target Ht. rewrite (rows_of_insert _ _ _ tbl _ Hrows).
      destruct (decide (t = tbl)) as [->|_]; [right|]; exact Ht. }
    rewrite (rows_of_insert _ _ _ table _ Hrows) in Hrow.
    destruct (decide (t = table)) as [->|Hne].
    + assert (rel' = rel) as -> by congruence.
      destruct Hrow as [<-|Hold].
      * apply (references_ok_mono db); [apply Hgrow|].
        unfold foreign_key_violation in Hfk.
        destruct (find _ (rel_constraints rel)) as [v|] eqn:Hfind; [discriminate|].
        pose proof (find_none _ _ Hfind _ Hin) as Hcheck. cbn in Hcheck.
        apply negb_false_iff in Hcheck. exact Hcheck.
      * apply (references_ok_mono db); [apply Hgrow|]. exact (Hinv table rel cname cols rt rcols row Hrel Hin ltac:(assumption)).
    + apply (references_ok_mono db); [apply Hgrow|]. exact (Hinv table rel cname cols rt rcols row Hrel Hin ltac:(assumption)).
  - pose proof Hexec as Htrunc. unfold truncate in Htrunc.
    destruct (relations (db_catalog db) !! t) as [rt0|]; [|discriminate].
    destruct (referenced (db_catalog db) t) eqn:Href; [discriminate|]. clear Htrunc.
    apply truncate_inv in Hexec as [_ Hrows].
    rewrite (rows_of_insert _ _ _ table _ Hrows) in Hrow.
    destruct (decide (t = table)) as [->|Hne]; [destruct Hrow|].
    assert (Hrt : rt ≠ t).
    { intros ->. rewrite (referenced_by _ _ _ _ _ _ _ Hrel Hin) in Href. discriminate. }
    apply (references_ok_mono db); [|eapply Hinv; eassumption].
    intros target Ht. rewrite (rows_of_insert _ _ _ rt _ Hrows).
    destruct (decide (t = rt)) as [->|_]; [destruct Hrt; reflexivity | exact Ht].
Qed.

Lemma reachable_respects_foreign_keys db : reachable db → respects_foreign_keys db.
Proof.
  induction 1 as [|db c db' _ IH Hexec].
  - intros table rel cname cols rt rcols row _ _ Hrow. destruct Hrow.
  - eapply exec_command_respects_foreign_keys; eassumption.
Qed.

Lemma sample_resolver_load_runs : ∃ db, load initial_db sample_resolver_load = inr db.
Proof.
  assert (Hok : error_of (load initial_db sample_resolver_load) = None)
    by (vm_compute; reflexivity).
  destruct (load initial_db sample_resolver_load) as [e|db]; [discriminate Hok|].
  exists db. reflexivity.
Qed.

(** X1: referential integrity.  In every state the loader and the
    resolver can reach, a stored row whose (non-null) column carries a
    foreign key matches a stored row of the referenced relation: a join
    row never points at a parcel or an overlay polygon that is not
    there. *)
Theorem referencing_rows_have_targets :
  ∀ db table rel cname col ref_table ref_col row,
    reachable db →
    relations schema_catalog !! table = Some rel →
    In (cname, ForeignKey [col] ref_table [ref_col]) (rel_constraints rel) →
    not_null_column rel col = true →
    In row (rows_of db table) →
    ∃ target, In target (rows_of db ref_table)
              ∧ value_matches (field row col) (field target ref_col) = true.
Proof.
  intros db table rel cname col rt rcol row Hreach Hrel Hin Hnn Hrow.
  pose proof (reachable_catalog db Hreach) as Hcat.
  destruct (reachable_respects db Hreach) as [Hnotnull _].
  pose proof (reachable_respects_foreign_keys db Hreach) as Hfk.
  rewrite <- Hcat in Hrel.
  pose proof (Hfk _ _ _ _ _ _ _ Hrel Hin Hrow) as Hok.
  pose proof (Hnotnull _ _ _ _ Hrel Hnn Hrow) as Hval.
  unfold references_ok in Hok. cbn in Hok. rewrite Hval in Hok. cbn in Hok.
  apply existsb_exists in Hok as (target & Ht & Hm).
  exists target. split; [exact Ht|].
  rewrite andb_true_r in Hm. exact Hm.
Qed.

Lemma referencing_rows_have_targets_witness :
  ∃ db, load initial_db sample_resolver_load = inr db
        ∧ Forall (fun row =>
                    ∃ target, In target (rows_of db "properties")
                              ∧ value_matches (field row "property_id") (field target "id")
                                = true)
                 (rows_of db "property_biodiversity").
Proof.
  destruct sample_resolver_load_runs as [db Hload].
  exists db. split; [exact Hload|].
  apply Forall_forall. intros row Hrow. apply list_elem_of_In in Hrow.
  destruct join_relation_keys as [(rel & Hrel & _) _].
  apply (referencing_rows_have_targets db "property_biodiversity" rel
           "property_biodiversity_property_id_fkey" "property_id" "properties" "id" row).
  - exact (load_reachable _ _ _ reachable_initial Hload).
  - exact Hrel.
  - vm_compute in Hrel. injection Hrel as <-. cbn. right. left. reflexivity.
  - vm_compute in Hrel. injection Hrel as <-. reflexivity.
  - exact Hrow.
Defined.

(** ** Keys of the production relations *)

Lemma value_matches_join x y v :
  value_matches x v = true → value_matches y v = true → value_matches x y = true.
Proof.
  destruct x, y, v; cbn; try discriminate.
  - rewrite !Z.eqb_eq. congruence.
  - rewrite !Qeq_bool_iff. intros Hx Hy. rewrite Hx, Hy. reflexivity.
  - rewrite !String.eqb_eq. congruence.
  - destruct b, b0, b1; cbn; congruence.
  - rewrite !String.eqb_eq. congruence.
Qed.

Lemma unique_rows_with col v rows :
  unique_rows [col] rows → (length (rows_with col v rows) <= 1)%nat.
Proof.
  induction rows as [|r rest IH]; cbn; [lia|].
  intros [Hfresh Huniq].
  destruct (value_matches (field r col) v) eqn:Hr; [|apply IH; exact Huniq].
  fold (rows_with col v rest). unfold rows_with.
  rewrite filter_none; [cbn; lia|].
  intros old Hold.
  destruct (value_matches (field old col) v) eqn:Hm; [|reflexivity].
  rewrite Forall_forall in Hfresh.
  assert (Hk : key_match [col] r old = false)
    by (apply Hfresh, list_elem_of_In; exact Hold).
  cbn in Hk. rewrite (value_matches_join _ _ _ Hr Hm) in Hk. discriminate.
Qed.

Lemma properties_relation :
  ∃ rel, relations schema_catalog !! "properties" = Some rel
         ∧ In ("properties_pkey", PrimaryKey ["id"]) (rel_constraints rel)
         ∧ In ("properties_sg26_code_key", Unique ["sg26_code"]) (rel_constraints rel)
         ∧ not_null_column rel "id" = true
         ∧ not_null_column rel "sg26_code" = true
         ∧ not_null_column rel "geom" = true.
Proof.
  eexists. split; [vm_compute; reflexivity|].
  repeat split; try reflexivity; cbn; auto.
Qed.

(** X2: the parcel relation is keyed.  In every reachable state no two
    rows of [properties] share an [sg26_code] or an [id], and every row
    has a parcel code, an id and a geometry. *)
Theorem parcels_keyed_by_sg26_code :
  ∀ db,
    reachable db →
    (∀ code, (length (rows_with "sg26_code" (STR code) (rows_of db "properties")) <= 1)%nat)
    ∧ (∀ id, (length (rows_with "id" (INT id) (rows_of db "properties")) <= 1)%nat)
    ∧ (∀ row, In row (rows_of db "properties") →
              is_null (field row "sg26_code") = false
              ∧ is_null (field row "id") = false
              ∧ is_null (field row "geom") = false).
Proof.
  intros db Hreach.
  destruct (reachable_respects db Hreach) as [Hnn Huniq].
  pose proof (reachable_catalog db Hreach) as Hcat.
  destruct properties_relation as (rel & Hrel & Hpk & Hkey & Hid & Hcode & Hgeom).
  rewrite <- Hcat in Hrel.
  split; [|split].
  - intros code. apply unique_rows_with.
    exact (Huniq _ _ _ _ _ Hrel Hkey eq_refl).
  - intros id. apply unique_rows_with.
    exact (Huniq _ _ _ _ _ Hrel Hpk eq_refl).
  - intros row Hrow. repeat split; eapply Hnn; eassumption.
Qed.

Lemma parcels_keyed_by_sg26_code_witness :
  ∃ db, load initial_db sample_resolver_load = inr db
        ∧ (length (rows_with "sg26_code" (STR "C01600010000000100000")
                     (rows_of db "properties")) <= 1)%nat.
Proof.
  destruct sample_resolver_load_runs as [db Hload].
  exists db. split; [exact Hload|].
  apply (parcels_keyed_by_sg26_code db).
  exact (load_reachable _ _ _ reachable_initial Hload).
Defined.

Lemma property_urban_edge_relation :
  ∃ rel, relations schema_catalog !! "property_urban_edge" = Some rel
         ∧ In ("property_urban_edge_property_id_key", Unique ["property_id"])
              (rel_constraints rel)
         ∧ In ("property_urban_edge_property_id_fkey",
               ForeignKey ["property_id"] "properties" ["id"]) (rel_constraints rel)
         ∧ not_null_column rel "property_id" = true
         ∧ not_null_column rel "inside_urban_edge" = true.
Proof.
  eexists. split; [vm_compute; reflexivity|].
  repeat split; try reflexivity; cbn; auto.
Qed.

(** X3: the urban-edge classification is one-to-one.  In every
    reachable state [property_urban_edge] holds at most one row per
    property, each row carries a classification, and the property it
    classifies is stored. *)
Theorem one_urban_edge_row_per_property :
  ∀ db,
    reachable db →
    (∀ pid, (length (rows_with "property_id" (INT pid)
                       (rows_of db "property_urban_edge")) <= 1)%nat)
    ∧ (∀ row, In row (rows_of db "property_urban_edge") →
              is_null (field row "inside_urban_edge") = false
              ∧ ∃ p, In p (rows_of db "properties")
                     ∧ value_matches (field row "property_id") (field p "id") = true).
Proof.
  intros db Hreach.
  destruct (reachable_respects db Hreach) as [Hnn Huniq].
  pose proof (reachable_respects_foreign_keys db Hreach) as Hfk.
  pose proof (reachable_catalog db Hreach) as Hcat.
  destruct property_urban_edge_relation as (rel & Hrel & Hkey & Hforeign & Hpid & Hinside).
  rewrite <- Hcat in Hrel.
  split.
  - intros pid. apply unique_rows_with.
    exact (Huniq _ _ _ _ _ Hrel Hkey eq_refl).
  - intros row Hrow. split; [eapply Hnn; eassumption|].
    pose proof (Hfk _ _ _ _ _ _ _ Hrel Hforeign Hrow) as Hok.
    pose proof (Hnn _ _ _ _ Hrel Hpid Hrow) as Hval.
    unfold references_ok in Hok. cbn in Hok. rewrite Hval in Hok. cbn in Hok.
    apply existsb_exists in Hok as (target & Ht & Hm).
    exists target. split; [exact Ht|]. rewrite andb_true_r in Hm. exact Hm.
Qed.

Lemma sample_urban_edge_load_runs :
  ∃ db, load initial_db sample_urban_edge_load = inr db
        ∧ length (rows_of db "property_urban_edge") = 2.
Proof.
  assert (Hok : match load initial_db sample_urban_edge_load with
                | inr db => length (rows_of db "property_urban_edge")
                | inl _ => 0
                end = 2) by (vm_compute; reflexivity).
  destruct (load initial_db sample_urban_edge_load) as [e|db]; [discriminate Hok|].
  exists db. split; [reflexivity | exact Hok].
Qed.

Lemma one_urban_edge_row_per_property_witness :
  ∃ db, load initial_db sample_urban_edge_load = inr db
        ∧ length (rows_of db "property_urban_edge") = 2
        ∧ (length (rows_with "property_id" (INT 1) (rows_of db "property_urban_edge"))
           <= 1)%nat
        ∧ Forall (fun row =>
                    is_null (field row "inside_urban_edge") = false
                    ∧ ∃ p, In p (rows_of db "properties")
                           ∧ value_matches (field row "property_id") (field p "id") = true)
                 (rows_of db "property_urban_edge").
Proof.
  destruct sample_urban_edge_load_runs as (db & Hload & Hlen).
  exists db. split; [exact Hload|]. split; [exact Hlen|].
  destruct (one_urban_edge_row_per_property db
              (load_reachable _ _ _ reachable_initial Hload)) as [Huniq Hrows].
  split; [apply Huniq|].
  apply Forall_forall. intros row Hrow. apply Hrows, list_elem_of_In. exact Hrow.
Defined.

(** ** What a staging relation can refuse *)

Lemma staging_constraints_empty staging production :
  In (staging, production) staging_tables →
  ∃ rs, relations schema_catalog !! staging = Some rs ∧ rel_constraints rs = [].
Proof.
  intros Hin. cbn in Hin.
  repeat (destruct Hin as [[= <- <-]|Hin];
          [eexists; split; [vm_compute; reflexivity | reflexivity]|]).
  destruct Hin.
Qed.

Lemma null_violation_any_sequence seqs seqs' rel r :
  null_violation seqs rel r = null_violation seqs' rel r.
Proof.
  unfold null_violation. f_equal.
  induction (rel_columns rel) as [|c cols IH]; [reflexivity|]. cbn.
  assert (Hsame : is_null (value_in seqs r c) = is_null (value_in seqs' r c)).
  { unfold value_in. destruct (r !! col_name c); [reflexivity|].
    destruct (col_default c) as [[s| |b]|]; reflexivity. }
  rewrite Hsame, IH. reflexivity.
Qed.

Lemma value_matches_refl v : is_null v = false → value_matches v v = true.
Proof.
  destruct v; cbn; try discriminate; intros _.
  - apply Z.eqb_refl.
  - apply Qeq_bool_iff. reflexivity.
  - apply String.eqb_refl.
  - destruct b; reflexivity.
  - apply String.eqb_refl.
Qed.

Lemma properties_sg26_code_column :
  ∃ rel c, relations schema_catalog !! "properties" = Some rel
           ∧ column_named rel "sg26_code" = Some c
           ∧ col_name c = "sg26_code"
           ∧ col_default c = None
           ∧ not_null_column rel "sg26_code" = true
           ∧ In ("properties_sg26_code_key", Unique ["sg26_code"]) (rel_constraints rel).
Proof.
  do 2 eexists. split; [vm_compute; reflexivity|].
  split; [reflexivity|]. repeat split; cbn; auto.
Qed.

Lemma insert_row_known_columns db table r db' rel :
  relations (db_catalog db) !! table = Some rel →
  insert_row db table r = inr db' → undefined_column rel r = None.
Proof.
  intros Hrel. unfold insert_row. rewrite Hrel.
  destruct (undefined_column rel r); [discriminate | reflexivity].
Qed.

(** X4: a staging relation never refuses a row for a duplicate key or
    for a missing reference, whatever it already holds: a row that was
    staged once can be staged again, and the relation then holds both
    copies.  The production relation [properties], in contrast, refuses
    the second copy of any row it accepted with a unique violation. *)
Theorem staging_accepts_duplicates :
  ∀ db staging production r,
    reachable db →
    In (staging, production) staging_tables →
    (∀ e, insert_row db staging r = inl e →
          ∀ n, e ≠ UniqueViolation n ∧ e ≠ ForeignKeyViolation n)
    ∧ (∀ db', insert_row db staging r = inr db' →
              ∃ db'', insert_row db' staging r = inr db''
                      ∧ length (rows_of db'' staging) = S (S (length (rows_of db staging))))
    ∧ (∀ db', insert_row db "properties" r = inr db' →
              ∃ n, insert_row db' "properties" r = inl (UniqueViolation n)).
Proof.
  intros db staging production r Hreach Hin.
  destruct (staging_constraints_empty _ _ Hin) as (rs & Hrs & Hnone).
  pose proof (reachable_catalog db Hreach) as Hcat.
  split; [|split].
  - intros e. unfold insert_row. rewrite Hcat, Hrs.
    destruct (undefined_column rs r) as [c|]; [intros [= <-]; split; discriminate|].
    destruct (null_violation _ rs r) as [c|]; [intros [= <-]; split; discriminate|].
    unfold unique_violation, foreign_key_violation. rewrite Hnone. cbn. discriminate.
  - intros db' Hins.
    pose proof (insert_row_inv _ _ _ _ Hins) as (rel & Hrel & Hnull & _ & Hcat' & Hrows).
    rewrite Hcat, Hrs in Hrel. injection Hrel as <-.
    assert (Hundef : undefined_column rs r = None).
    { apply (insert_row_known_columns db staging r db'); [rewrite Hcat; exact Hrs|].
      exact Hins. }
    unfold insert_row at 1. rewrite Hcat', Hcat, Hrs, Hundef.
    rewrite (null_violation_any_sequence _ (db_sequences db)), Hnull.
    unfold unique_violation, foreign_key_violation. rewrite Hnone. cbn.
    eexists. split; [reflexivity|].
    unfold rows_of at 1. cbn. rewrite lookup_insert_eq. cbn.
    rewrite (rows_of_insert _ _ _ staging _ Hrows).
    destruct (decide (staging = staging)) as [_|Hne]; [reflexivity | destruct Hne; reflexivity].
  - intros db' Hins.
    destruct properties_sg26_code_column
      as (rel & c & Hrel & Hcol & Hname & Hdefault & Hnn & Hkey).
    pose proof (insert_row_inv _ _ _ _ Hins) as (rel0 & Hrel0 & Hnull & _ & Hcat' & Hrows).
    rewrite Hcat, Hrel in Hrel0. injection Hrel0 as <-.
    assert (Hundef : undefined_column rel r = None).
    { apply (insert_row_known_columns db "properties" r db'); [rewrite Hcat; exact Hrel|].
      exact Hins. }
    pose proof (accepted_row_not_null _ _ _ _ Hnull Hnn) as Hvalue.
    assert (Hsame : ∀ seqs, field (complete seqs rel r) "sg26_code"
                            = field (complete (db_sequences db) rel r) "sg26_code").
    { intros seqs. rewrite !complete_field, Hcol. unfold value_in.
      rewrite Hname, Hdefault. reflexivity. }
    unfold insert_row. rewrite Hcat', Hcat, Hrel, Hundef.
    rewrite (null_violation_any_sequence _ (db_sequences db)), Hnull.
    destruct (unique_violation rel (rows_of db' "properties") _) as [n|] eqn:Huniq;
      [exists n; reflexivity|].
    exfalso. unfold unique_violation in Huniq.
    destruct (find _ (rel_constraints rel)) as [found|] eqn:Hfind; [discriminate|].
    pose proof (find_none _ _ Hfind _ Hkey) as Hcheck. cbn [snd unique_columns] in Hcheck.
    rewrite (rows_of_insert _ _ _ "properties" _ Hrows) in Hcheck.
    destruct (decide ("properties" = "properties")) as [_|Hne]; [|destruct Hne; reflexivity].
    cbn [existsb key_match forallb] in Hcheck.
    rewrite Hsame, (value_matches_refl _ Hvalue) in Hcheck. discriminate.
Qed.

Lemma staging_accepts_duplicates_witness :
  ∃ db db', insert_row initial_db "staging_properties" sample_property_row = inr db
            ∧ insert_row db "staging_properties" sample_property_row = inr db'
            ∧ length (rows_of db' "staging_properties") = 2
            ∧ ∃ parcels n,
                insert_row initial_db "properties" sample_property_row = inr parcels
                ∧ insert_row parcels "properties" sample_property_row
                  = inl (UniqueViolation n).
Proof.
  assert (Hin : In ("staging_properties", "properties") staging_tables)
    by (cbn; left; reflexivity).
  destruct (staging_accepts_duplicates initial_db "staging_properties" "properties"
              sample_property_row reachable_initial Hin) as (_ & Hagain & Hproduction).
  assert (Hok : error_of (insert_row initial_db "staging_properties" sample_property_row)
                = None) by (vm_compute; reflexivity).
  destruct (insert_row initial_db "staging_properties" sample_property_row)
    as [e|db] eqn:Hins; [discriminate Hok|].
  destruct (Hagain db eq_refl) as (db' & Hsecond & Hlen).
  assert (Hok' : error_of (insert_row initial_db "properties" sample_property_row)
                 = None) by (vm_compute; reflexivity).
  destruct (insert_row initial_db "properties" sample_property_row)
    as [e|parcels] eqn:Hparcels; [discriminate Hok'|].
  destruct (Hproduction parcels eq_refl) as (n & Hrefused).
  exists db, db'. split; [reflexivity|]. split; [exact Hsecond|]. split; [exact Hlen|].
  exists parcels, n. split; [reflexivity | exact Hrefused].
Defined.

(** * Further properties of the frontend *)

(** ** The search box *)

Section SearchBox.
Import AddressSearchBar.

Lemma handleSelect_state s r s' selected :
  handleSelect s r = Continue s' selected →
  results s' = results s ∧ selectedIndex s' = selectedIndex s ∧ isOpen s' = false
  ∧ selected = r ∧ is_Some r.
Proof.
  destruct r as [res|]; cbn; [|discriminate].
  intros [= <- <-]. cbn. eauto 6.
Qed.

Lemma step_keeps_highlight_in_range s e s' selected :
  highlight_in_range s → step s e = Continue s' selected → highlight_in_range s'.
Proof.
  unfold highlight_in_range. intros Hinv.
  destruct e as [val| | |data| |k| | |refocused|i]; cbn [step].
  - intros [= <- _]. exact Hinv.
  - intros [= <- _]. left. reflexivity.
  - intros [= <- _]. exact Hinv.
  - intros [= <- _]. cbn [results selectedIndex].
    destruct data as [[|r l]|]; [left; reflexivity| |left; reflexivity].
    right. cbn [default length]. lia.
  - intros [= <- _]. left. reflexivity.
  - unfold handleKeyDown. destruct (isOpen s); cbn [negb]; [|intros [= <- _]; exact Hinv].
    destruct k.
    + intros [= <- _]. cbn [results selectedIndex].
      destruct (results s) as [|r l]; [left; reflexivity|]. right.
      destruct Hinv as [Hnil|Hrange]; [discriminate|]. cbn [length] in *. lia.
    + intros [= <- _]. cbn [results selectedIndex].
      destruct (results s) as [|r l]; [left; reflexivity|]. right.
      destruct Hinv as [Hnil|Hrange]; [discriminate|]. cbn [length] in *. lia.
    + destruct (0 <=? selectedIndex s)%Z; [|intros [= <- _]; exact Hinv].
      intros Hsel. apply handleSelect_state in Hsel as (-> & -> & _). exact Hinv.
    + intros [= <- _]. exact Hinv.
    + intros [= <- _]. exact Hinv.
  - destruct (negb _); intros [= <- _]; exact Hinv.
  - destruct (dropdown_rendered s); intros [= <- _]; exact Hinv.
  - intros [= <- _]. left. reflexivity.
  - destruct (dropdown_rendered s); [|intros [= <- _]; exact Hinv].
    destruct (results s !! i); [|intros [= <- _]; exact Hinv].
    intros Hsel. apply handleSelect_state in Hsel as (-> & -> & _). exact Hinv.
Qed.

Lemma reachable_highlight_in_range s : reachable s → highlight_in_range s.
Proof.
  induction 1 as [|s e s' selected _ IH Hstep].
  - left. reflexivity.
  - eapply step_keeps_highlight_in_range; eassumption.
Qed.

(** X5: keyboard navigation stays inside the result list.  Whatever the
    user and the search requests did before, while the result list is
    not empty the highlighted index is -1 or a position of the list,
    ArrowDown and ArrowUp keep it in the list, and Enter either does
    nothing (no row is highlighted, or the box is closed) or hands
    [onSelect] the highlighted result and closes the box; it never
    throws. *)
Theorem search_navigation_in_range :
  ∀ s,
    reachable s →
    results s ≠ [] →
    (-1 <= selectedIndex s < Z.of_nat (length (results s)))%Z
    ∧ (∀ k s' selected,
         step s (KeyDown k) = Continue s' selected →
         results s' = results s
         ∧ (-1 <= selectedIndex s' < Z.of_nat (length (results s)))%Z)
    ∧ step s (KeyDown Enter) ≠ TypeError
    ∧ (∀ s' r, step s (KeyDown Enter) = Continue s' (Some r) →
               results s !! Z.to_nat (selectedIndex s) = Some r
               ∧ isOpen s = true ∧ isOpen s' = false)
    ∧ (isOpen s = true → selectedIndex s = (-1)%Z →
       step s (KeyDown Enter) = Continue s None).
Proof.
  intros s Hreach Hne.
  destruct (reachable_highlight_in_range s Hreach) as [Hnil|Hrange]; [contradiction|].
  split; [exact Hrange|]. split; [|split; [|split]].
  - intros k s' selected Hstep.
    assert (Hres : results s' = results s).
    { revert Hstep. cbn. unfold handleKeyDown.
      destruct (isOpen s); cbn; [|intros [= <- _]; reflexivity].
      destruct k; try (intros [= <- _]; reflexivity).
      destruct (0 <=? selectedIndex s)%Z; [|intros [= <- _]; reflexivity].
      intros Hsel. apply handleSelect_state in Hsel as (-> & _). reflexivity. }
    split; [exact Hres|].
    assert (Hreach' : reachable s') by (eapply reachable_step; eassumption).
    destruct (reachable_highlight_in_range s' Hreach') as [Hnil|Hrange'].
    + rewrite Hres in Hnil. contradiction.
    + rewrite Hres in Hrange'. exact Hrange'.
  - cbn. unfold handleKeyDown. destruct (isOpen s); cbn; [|discriminate].
    destruct (0 <=? selectedIndex s)%Z eqn:Hidx; [|discriminate].
    apply Z.leb_le in Hidx.
    destruct (lookup_lt_is_Some_2 (results s) (Z.to_nat (selectedIndex s))) as [r Hr];
      [lia|].
    rewrite Hr. cbn. discriminate.
  - intros s' r. cbn. unfold handleKeyDown.
    destruct (isOpen s); cbn; [|discriminate].
    destruct (0 <=? selectedIndex s)%Z; [|discriminate].
    intros Hsel. apply handleSelect_state in Hsel as (_ & _ & Hclosed & Hr & _).
    auto.
  - intros Hopen Hidx. cbn. unfold handleKeyDown. rewrite Hopen, Hidx. reflexivity.
Qed.
End SearchBox.

Lemma sample_open_reachable : AddressSearchBar.reachable AddressSearchBar.sample_open.
Proof.
  apply (AddressSearchBar.reachable_step AddressSearchBar.initial
           (AddressSearchBar.SearchResolved (Some [AddressSearchBar.sample_result]))
           _ None AddressSearchBar.reachable_initial).
  reflexivity.
Qed.

Lemma search_navigation_in_range_witness :
  (-1 <= AddressSearchBar.selectedIndex AddressSearchBar.sample_open < 1)%Z
  ∧ AddressSearchBar.step AddressSearchBar.sample_open
      (AddressSearchBar.KeyDown AddressSearchBar.Enter)
    = AddressSearchBar.Continue AddressSearchBar.sample_open None.
Proof.
  assert (Hne : AddressSearchBar.results AddressSearchBar.sample_open ≠ []) by discriminate.
  destruct (search_navigation_in_range AddressSearchBar.sample_open
              sample_open_reachable Hne) as (Hrange & _ & _ & _ & Hfresh).
  split; [exact Hrange|]. apply Hfresh; reflexivity.
Defined.

(** X6: a failed search leaves the box open on an empty list.  From any
    reachable open state a rejected search empties the results but keeps
    [isOpen]; the dropdown is then not rendered, a mouse press outside
    no longer closes the box, ArrowUp moves the index to a non-negative
    value and Enter throws, because [handleSelect] is handed
    [undefined]. *)
Theorem rejected_search_leaves_box_open :
  ∀ s,
    AddressSearchBar.reachable s →
    AddressSearchBar.isOpen s = true →
    ∃ s1 s2,
      AddressSearchBar.step s AddressSearchBar.SearchRejected
      = AddressSearchBar.Continue s1 None
      ∧ AddressSearchBar.reachable s1
      ∧ AddressSearchBar.isOpen s1 = true
      ∧ AddressSearchBar.results s1 = []
      ∧ AddressSearchBar.dropdown_rendered s1 = false
      ∧ AddressSearchBar.step s1 AddressSearchBar.OutsideMouseDown
        = AddressSearchBar.Continue s1 None
      ∧ AddressSearchBar.step s1 (AddressSearchBar.KeyDown AddressSearchBar.ArrowUp)
        = AddressSearchBar.Continue s2 None
      ∧ (0 <= AddressSearchBar.selectedIndex s2)%Z
      ∧ AddressSearchBar.step s2 (AddressSearchBar.KeyDown AddressSearchBar.Enter)
        = AddressSearchBar.TypeError.
Proof.
  intros s Hreach Hopen.
  eexists. eexists.
  split; [reflexivity|].
  split; [apply (AddressSearchBar.reachable_step s AddressSearchBar.SearchRejected
                   _ None Hreach); reflexivity|].
  split; [exact Hopen|]. split; [reflexivity|].
  split; [cbn; rewrite Hopen; reflexivity|].
  split; [cbn; unfold AddressSearchBar.dropdown_rendered; cbn; rewrite Hopen; reflexivity|].
  split; [cbn; unfold AddressSearchBar.handleKeyDown; cbn [AddressSearchBar.isOpen];
          rewrite Hopen; reflexivity|].
  split; [cbn [AddressSearchBar.selectedIndex]; lia|].
  cbn [AddressSearchBar.step]. unfold AddressSearchBar.handleKeyDown.
  cbn [AddressSearchBar.isOpen AddressSearchBar.selectedIndex AddressSearchBar.results].
  rewrite ?Hopen. cbn [negb].
  destruct (0 <=? _)%Z eqn:Hidx; [reflexivity|].
  apply Z.leb_gt in Hidx. lia.
Qed.

Lemma rejected_search_leaves_box_open_witness :
  ∃ s1 s2,
    AddressSearchBar.step AddressSearchBar.sample_open AddressSearchBar.SearchRejected
    = AddressSearchBar.Continue s1 None
    ∧ AddressSearchBar.step s1 (AddressSearchBar.KeyDown AddressSearchBar.ArrowUp)
      = AddressSearchBar.Continue s2 None
    ∧ AddressSearchBar.step s2 (AddressSearchBar.KeyDown AddressSearchBar.Enter)
      = AddressSearchBar.TypeError.
Proof.
  destruct (rejected_search_leaves_box_open AddressSearchBar.sample_open
              sample_open_reachable eq_refl)
    as (s1 & s2 & Hrej & _ & _ & _ & _ & _ & Hup & _ & Henter).
  exists s1, s2. auto.
Defined.

(** ** The dark-mode preference *)

(** X7: the dark-mode preference survives a reload.  After the effect
    has run for a value of [dark], the hook starts from that value,
    whatever the system preference is; the page carries the class
    'dark' exactly when [dark] is true; no other class and no other
    storage key is touched; without a stored value the system
    preference decides, and a stored value other than 'true' reads as
    light. *)
Theorem dark_mode_round_trip :
  (∀ dark p prefers_dark,
     DarkMode.initial (DarkMode.localStorage (DarkMode.effect dark p)) prefers_dark = dark)
  ∧ (∀ dark p, "dark" ∈ DarkMode.classList (DarkMode.effect dark p) ↔ dark = true)
  ∧ (∀ dark p c, c ≠ "dark" →
                 (c ∈ DarkMode.classList (DarkMode.effect dark p) ↔ c ∈ DarkMode.classList p))
  ∧ (∀ dark p k, k ≠ "capeeco-dark" →
                 DarkMode.localStorage (DarkMode.effect dark p) !! k
                 = DarkMode.localStorage p !! k)
  ∧ (∀ storage prefers_dark, storage !! "capeeco-dark" = None →
                             DarkMode.initial storage prefers_dark = prefers_dark)
  ∧ (∀ storage stored prefers_dark,
       storage !! "capeeco-dark" = Some stored → stored ≠ "true" →
       DarkMode.initial storage prefers_dark = false).
Proof.
  split; [|split; [|split; [|split; [|split]]]].
  - intros dark p sys. unfold DarkMode.initial, DarkMode.effect. cbn.
    rewrite lookup_insert_eq. destruct dark; reflexivity.
  - intros dark p. unfold DarkMode.effect. cbn. destruct dark.
    + rewrite elem_of_union, elem_of_singleton. split; auto.
    + rewrite elem_of_difference, elem_of_singleton.
      split; [intros [_ Hnot]; destruct Hnot; reflexivity | discriminate].
  - intros dark p c Hc. unfold DarkMode.effect. cbn. destruct dark.
    + rewrite elem_of_union, elem_of_singleton.
      split; [intros [Heq|Hin]; [contradiction | exact Hin] | auto].
    + rewrite elem_of_difference, elem_of_singleton.
      split; [intros [Hin _]; exact Hin | intros Hin; split; [exact Hin | exact Hc]].
  - intros dark p k Hk. unfold DarkMode.effect. cbn.
    rewrite lookup_insert_ne by congruence. reflexivity.
  - intros storage sys Hnone. unfold DarkMode.initial. rewrite Hnone. reflexivity.
  - intros storage stored sys Hsome Hne. unfold DarkMode.initial. rewrite Hsome.
    apply String.eqb_neq. exact Hne.
Qed.

Lemma dark_mode_round_trip_witness :
  DarkMode.initial {[ "capeeco-dark" := "false" ]} true = false
  ∧ DarkMode.initial ∅ true = true.
Proof.
  destruct dark_mode_round_trip as (_ & _ & _ & _ & Hsystem & Hother).
  split.
  - apply (Hother _ "false"); [reflexivity | discriminate].
  - apply Hsystem. reflexivity.
Defined.

(** ** The session token *)



(** ** The overlay layers *)

Section LayerFacts.
Import Layers.

Lemma js_get_set_eq {A : Type} (obj : list (string * A)) key v :
  js_get (js_set obj key v) key = Some v.
Proof.
  induction obj as [|[k x] rest IH]; cbn.
  - rewrite String.eqb_refl. reflexivity.
  - destruct (String.eqb k key) eqn:Hk; cbn; rewrite Hk; [reflexivity | exact IH].
Qed.

Lemma js_get_set_ne {A : Type} (obj : list (string * A)) key k v :
  k ≠ key → js_get (js_set obj key v) k = js_get obj k.
Proof.
  intros Hne. induction obj as [|[k' x] rest IH]; cbn.
  - apply String.eqb_neq in Hne. rewrite String.eqb_sym, Hne. reflexivity.
  - destruct (String.eqb_spec k' key) as [->|Hk]; cbn.
    + apply not_eq_sym, String.eqb_neq in Hne. rewrite Hne. reflexivity.
    + destruct (String.eqb k' k); [reflexivity | exact IH].
Qed.

Lemma keys_set_present {A : Type} (obj : list (string * A)) key v :
  is_Some (js_get obj key) → keys (js_set obj key v) = keys obj.
Proof.
  unfold keys. induction obj as [|[k x] rest IH]; cbn; [intros [? [=]]|].
  destruct (String.eqb k key); cbn; [reflexivity|].
  intros Hsome. rewrite (IH Hsome). reflexivity.
Qed.

Lemma js_set_set {A : Type} (obj : list (string * A)) key v w :
  js_set (js_set obj key v) key w = js_set obj key w.
Proof.
  induction obj as [|[k x] rest IH]; cbn.
  - rewrite String.eqb_refl. reflexivity.
  - destruct (String.eqb k key) eqn:Hk; cbn; rewrite Hk; [reflexivity|].
    rewrite IH. reflexivity.
Qed.

Lemma js_set_same {A : Type} (obj : list (string * A)) key v :
  js_get obj key = Some v → js_set obj key v = obj.
Proof.
  induction obj as [|[k x] rest IH]; cbn; [discriminate|].
  destruct (String.eqb k key); [intros [= ->]; reflexivity|].
  intros Hget. rewrite (IH Hget). reflexivity.
Qed.

Lemma js_get_member {A : Type} (obj : list (string * A)) key :
  In key (keys obj) ↔ is_Some (js_get obj key).
Proof.
  unfold keys. induction obj as [|[k x] rest IH]; cbn.
  - split; [intros [] | intros [? [=]]].
  - destruct (String.eqb_spec k key) as [->|Hne].
    + split; [eauto | auto].
    + rewrite <- IH. split; [intros [Hk|Hin]; [contradiction | exact Hin] | auto].
Qed.

Lemma js_set_absent {A : Type} (obj : list (string * A)) key v :
  js_get obj key = None → js_set obj key v = obj ++ [(key, v)].
Proof.
  induction obj as [|[k x] rest IH]; cbn; [reflexivity|].
  destruct (String.eqb k key); [discriminate|].
  intros Hget. rewrite (IH Hget). reflexivity.
Qed.

Lemma member_of_In key names : member_of key names = true ↔ In key names.
Proof.
  unfold member_of. rewrite existsb_exists. split.
  - intros (x & Hin & Heq). apply String.eqb_eq in Heq. subst x. exact Hin.
  - intros Hin. exists key. split; [exact Hin | apply String.eqb_refl].
Qed.

Lemma Object_prototype_In key :
  In key Object_prototype
  ↔ member_of key Object_prototype_methods = true ∨ key = "__proto__".
Proof.
  unfold Object_prototype. rewrite in_app_iff, member_of_In. cbn.
  split; [intros [Hm|[Hp|[]]]; auto | intros [Hm|Hp]; auto].
Qed.

Lemma js_index_own {A : Type} (obj : list (string * A)) key v :
  js_get obj key = Some v → js_index obj key = Own v.
Proof. intros Hget. unfold js_index. rewrite Hget. reflexivity. Qed.

Lemma js_index_inherited {A : Type} (obj : list (string * A)) key :
  js_get obj key = None → In key Object_prototype →
  js_index obj key = InheritedMethod key ∨ js_index obj key = PrototypeObject.
Proof.
  intros Hget Hin. unfold js_index. rewrite Hget.
  apply Object_prototype_In in Hin.
  destruct (member_of key Object_prototype_methods); [left; reflexivity|].
  destruct Hin as [Hm| ->]; [discriminate | right; reflexivity].
Qed.

Lemma js_index_undefined {A : Type} (obj : list (string * A)) key :
  js_index obj key = Undefined ↔ js_get obj key = None ∧ ¬ In key Object_prototype.
Proof.
  unfold js_index. rewrite Object_prototype_In.
  destruct (js_get obj key) as [v|].
  { split; [discriminate | intros [[=] _]]. }
  destruct (member_of key Object_prototype_methods).
  { split; [discriminate | intros [_ Hno]; destruct Hno; auto]. }
  destruct (String.eqb_spec key "__proto__") as [->|Hne].
  - split; [discriminate | intros [_ Hno]; destruct Hno; auto].
  - split; [intros _; split; [reflexivity | intros [[=]|Hp]; contradiction] | reflexivity].
Qed.

(** X9: toggling an overlay layer.  Every button the layer control
    renders toggles without error; a toggle of a layer flips the
    [active] flag of that layer and nothing else (same keys in the same
    order, same label, other layers untouched), and toggling twice
    restores the layers.  The update throws exactly for a key that is
    neither a layer nor a name of [Object.prototype]; for such a name
    (for instance 'constructor') it does not throw but appends an
    entry [{ active: true }] without a label, for which the layer
    control then renders a button. *)
Theorem toggleLayer_flips_one_layer :
  (∀ layers key, In key (buttons layers) → is_Some (toggleLayer key layers))
  ∧ (∀ layers key,
       toggleLayer key layers = None
       ↔ ¬ In key (keys layers) ∧ ¬ In key Object_prototype)
  ∧ (∀ layers key next,
       In key (keys layers) →
       toggleLayer key layers = Some next →
       keys next = keys layers
       ∧ (∃ l, js_get layers key = Some l
               ∧ js_get next key = Some {| active := negb (active l); label := label l |})
       ∧ (∀ k, k ≠ key → js_get next k = js_get layers k)
       ∧ toggleLayer key next = Some layers)
  ∧ (∀ layers key,
       ¬ In key (keys layers) → In key Object_prototype →
       toggleLayer key layers
       = Some (layers ++ [(key, {| active := true; label := None |})])
       ∧ In key (buttons (layers ++ [(key, {| active := true; label := None |})])))
  ∧ (showBioLayer <$> toggleLayer "biodiversity" initial) = Some (Some false).
Proof.
  split; [|split; [|split; [|split]]].
  - intros layers key Hin. apply js_get_member in Hin as [l Hl].
    unfold toggleLayer. rewrite (js_index_own _ _ _ Hl). eauto.
  - intros layers key. rewrite js_get_member, <- eq_None_not_Some.
    rewrite <- js_index_undefined. unfold toggleLayer.
    destruct (js_index layers key); split; congruence.
  - intros layers key next Hin. apply js_get_member in Hin as [[a lbl] Hget].
    unfold toggleLayer. rewrite (js_index_own _ _ _ Hget).
    intros [= <-]. cbn [active label].
    split; [apply keys_set_present; rewrite Hget; eauto|].
    split; [eexists; split; [exact Hget | apply js_get_set_eq]|].
    split; [intros k Hk; apply js_get_set_ne; exact Hk|].
    rewrite (js_index_own _ _ _ (js_get_set_eq _ _ _)).
    cbn [active label]. rewrite negb_involutive, js_set_set.
    f_equal. apply js_set_same. exact Hget.
  - intros layers key Hnot Hproto.
    assert (Hget : js_get layers key = None).
    { apply eq_None_not_Some. rewrite <- js_get_member. exact Hnot. }
    split.
    + unfold toggleLayer.
      destruct (js_index_inherited layers key Hget Hproto) as [-> | ->];
        rewrite (js_set_absent _ _ _ Hget); reflexivity.
    + unfold buttons, keys. rewrite map_app, in_app_iff. right. left. reflexivity.
  - reflexivity.
Qed.
End LayerFacts.

Lemma toggleLayer_flips_one_layer_witness :
  is_Some (Layers.toggleLayer "biodiversity" Layers.initial)
  ∧ Layers.toggleLayer "heritage" Layers.initial = None
  ∧ Layers.toggleLayer "constructor" Layers.initial
    = Some (Layers.initial
            ++ [("constructor", {| Layers.active := true; Layers.label := None |})])
  ∧ Layers.toggleLayer "biodiversity"
      [ ("biodiversity",
         {| Layers.active := false; Layers.label := Some "Biodiversity (CBA/ESA)" |}) ]
    = Some Layers.initial.
Proof.
  destruct toggleLayer_flips_one_layer as (Hbutton & Hmissing & Hflip & Hstray & _).
  split; [|split; [|split]].
  - apply Hbutton. cbn. left. reflexivity.
  - apply Hmissing. split; cbn; intuition discriminate.
  - apply (Hstray Layers.initial "constructor"); cbn; intuition discriminate.
  - apply (Hflip Layers.initial "biodiversity"); [cbn; left; reflexivity | reflexivity].
Defined.

(** ** Heritage records *)

Lemma category_key_in_range n :
  (0 <= n <= 5)%Z → n = 0%Z ∨ n = 1%Z ∨ n = 2%Z ∨ n = 3%Z ∨ n = 4%Z ∨ n = 5%Z.
Proof. lia. Qed.

Lemma pretty_N_go_first x s c :
  (∀ d, pretty_N_char d ≠ c) →
  (∀ rest, s ≠ String c rest) →
  ∀ rest, pretty_N_go x s ≠ String c rest.
Proof.
  intros Hc. revert s. induction (N.lt_wf_0 x) as [x _ IH]; intros s Hs rest.
  destruct (decide (x = 0)%N) as [->|Hx]; [rewrite pretty_N_go_0; apply Hs|].
  rewrite pretty_N_go_step by lia. apply IH; [apply N.div_lt; lia|].
  intros rest' [= Hd _]. exact (Hc _ Hd).
Qed.

(** The decimal text of an integer starts with a digit or a minus sign. *)
Lemma pretty_Z_first (n : Z) c rest :
  (∀ d, pretty_N_char d ≠ c) → String c "" ≠ "-" → pretty n ≠ String c rest.
Proof.
  intros Hc Hdash. unfold pretty, pretty_Z. destruct n as [|x|x].
  - intros [= H0 _]. exact (Hc 0%N H0).
  - unfold pretty, pretty_positive, pretty, pretty_N.
    destruct (decide (N.pos x = 0%N)); [discriminate|].
    apply pretty_N_go_first; [exact Hc | discriminate].
  - intros [= Hd _]. apply Hdash. rewrite Hd. reflexivity.
Qed.

Ltac not_a_number :=
  apply String.eqb_neq, pretty_Z_first;
  [ let d := fresh "d" in
    intros d; unfold pretty_N_char; repeat case_match; discriminate
  | discriminate ].

Lemma category_key_own_only (n : Z) :
  member_of (pretty n) Object_prototype_methods = false
  ∧ String.eqb (pretty n) "__proto__" = false.
Proof.
  split; [|not_a_number].
  unfold member_of, Object_prototype_methods. cbn [existsb].
  repeat match goal with
         | |- context [String.eqb (pretty n) ?s] =>
           replace (String.eqb (pretty n) s) with false by (symmetry; not_a_number)
         end.
  reflexivity.
Qed.

Lemma category_lookup (n : Z) :
  js_index Heritage.HERITAGE_CATEGORIES (pretty n)
  = match js_get Heritage.HERITAGE_CATEGORIES (pretty n) with
    | Some l => Own l
    | None => Undefined
    end.
Proof.
  unfold js_index. destruct (js_get _ _); [reflexivity|].
  destruct (category_key_own_only n) as [-> ->]. reflexivity.
Qed.

Lemma category_key_out_of_range n :
  ¬ (0 <= n <= 5)%Z → js_get Heritage.HERITAGE_CATEGORIES (pretty n) = None.
Proof.
  intros Hout.
  assert (Hne : ∀ k : Z, (0 <= k <= 5)%Z → pretty k ≠ pretty n).
  { intros k Hk Heq. apply (inj pretty) in Heq. subst k. contradiction. }
  cbn -[String.eqb pretty].
  pose proof (Hne 0%Z ltac:(lia)) as H0. pose proof (Hne 1%Z ltac:(lia)) as H1.
  pose proof (Hne 2%Z ltac:(lia)) as H2. pose proof (Hne 3%Z ltac:(lia)) as H3.
  pose proof (Hne 4%Z ltac:(lia)) as H4. pose proof (Hne 5%Z ltac:(lia)) as H5.
  apply String.eqb_neq in H0, H1, H2, H3, H4, H5.
  change (pretty 0%Z) with "0" in H0. change (pretty 1%Z) with "1" in H1.
  change (pretty 2%Z) with "2" in H2. change (pretty 3%Z) with "3" in H3.
  change (pretty 4%Z) with "4" in H4. change (pretty 5%Z) with "5" in H5.
  rewrite H0, H1, H2, H3, H4, H5. reflexivity.
Qed.

(** The grading element of the card, by the value of [city_grading]. *)
Lemma card_grading_cases h g :
  Heritage.city_grading h = Some g →
  (In g ["I"; "II"; "III"; "IIIA"; "IIIB"; "IIIC"]
   ∧ ∃ l, js_get Heritage.CITY_GRADINGS g = Some (Some l)
          ∧ Heritage.card_grading h = Some (Heritage.Text l))
  ∨ (In g Object_prototype_methods ∧ Heritage.card_grading h = Some Heritage.NoText)
  ∨ (g = "__proto__" ∧ Heritage.card_grading h = Some Heritage.RenderError)
  ∨ (¬ In g ["I"; "II"; "III"; "IIIA"; "IIIB"; "IIIC"]
     ∧ ¬ In g Object_prototype
     ∧ Heritage.card_grading h = None).
Proof.
  intros Hg. unfold Heritage.card_grading. rewrite Hg.
  destruct (in_dec String.string_dec g ["I"; "II"; "III"; "IIIA"; "IIIB"; "IIIC"]) as [Hsix|Hsix].
  { left. split; [exact Hsix|]. cbn in Hsix.
    destruct Hsix as [<-|[<-|[<-|[<-|[<-|[<-|[]]]]]]]; eexists; split; reflexivity. }
  destruct (in_dec String.string_dec g Object_prototype_methods) as [Hm|Hm].
  { right. left. split; [exact Hm|]. cbn in Hm.
    destruct Hm as [<-|[<-|[<-|[<-|[<-|[<-|[<-|[<-|[<-|[<-|[<-|[]]]]]]]]]]]];
      reflexivity. }
  destruct (String.string_dec g "__proto__") as [->|Hp].
  { right. right. left. split; reflexivity. }
  right. right. right.
  assert (Hproto : ¬ In g Object_prototype).
  { unfold Object_prototype. rewrite in_app_iff.
    intros [Hm'|[Hp'|[]]]; [exact (Hm Hm') | exact (Hp (eq_sym Hp'))]. }
  split; [exact Hsix|]. split; [exact Hproto|].
  destruct (String.string_dec g "Not Set") as [->|Hns]; [reflexivity|].
  assert (Hundef : js_index Heritage.CITY_GRADINGS g = Undefined).
  { apply js_index_undefined. split; [|exact Hproto].
    apply eq_None_not_Some. rewrite <- js_get_member. cbn. cbn in Hsix.
    intuition congruence. }
  rewrite Hundef. reflexivity.
Qed.

(** X10: the two heritage views.  The sidebar card and the report entry
    of a heritage record print the same source tag; they print the same
    title exactly when the record has a site name or its source is
    'inventory' or 'nhra'.  The card prints a grading text exactly for
    the six gradings I to IIIC, and whenever it renders a grading
    element the report prints a grading line.  For a grading that is a
    name of [Object.prototype] the report prints it, while the card
    renders an element without text (for '__proto__' it fails to
    render); for every other grading, 'Not Set' included, the card
    renders no grading element.  The card describes the categories 0 to
    5 from its table and prints 'Category n' for any other number,
    'Category null' for a null and 'Category undefined' for a missing
    category, where the report prints 'Category: n' or nothing. *)
Theorem heritage_views_agree :
  (∀ h, Heritage.card_tag h = Heritage.report_tag h)
  ∧ (∀ h, Heritage.card_title h = Heritage.report_title h
          ↔ truthy_str (Heritage.site_name h) = true
            ∨ Heritage.source h = "inventory" ∨ Heritage.source h = "nhra")
  ∧ (∀ h, is_Some (Heritage.card_grading h) → is_Some (Heritage.report_grading h))
  ∧ (∀ h, (∃ l, Heritage.card_grading h = Some (Heritage.Text l))
          ↔ ∃ g, Heritage.city_grading h = Some g
                 ∧ In g ["I"; "II"; "III"; "IIIA"; "IIIB"; "IIIC"])
  ∧ (∀ h g, Heritage.city_grading h = Some g → In g Object_prototype →
            Heritage.report_grading h = Some (String.append "City Grading: " g)
            ∧ Heritage.card_grading h
              = Some (if String.eqb g "__proto__"
                      then Heritage.RenderError else Heritage.NoText))
  ∧ (∀ h, Heritage.card_grading h = None
          ↔ Heritage.city_grading h = None
            ∨ ∃ g, Heritage.city_grading h = Some g
                   ∧ ¬ In g ["I"; "II"; "III"; "IIIA"; "IIIB"; "IIIC"]
                   ∧ ¬ In g Object_prototype)
  ∧ (∀ h n, Heritage.heritage_category h = Heritage.Number n →
            (-2147483648 <= n <= 2147483647)%Z →
            Heritage.report_category h = Some (String.append "Category: " (pretty n))
            ∧ if decide (0 <= n <= 5)%Z
              then ∃ l, js_get Heritage.HERITAGE_CATEGORIES (pretty n) = Some l
                        ∧ Heritage.card_category h = Heritage.Text l
              else Heritage.card_category h
                   = Heritage.Text (String.append "Category " (pretty n)))
  ∧ (∀ h, Heritage.heritage_category h = Heritage.Null →
          Heritage.card_category h = Heritage.Text "Category null"
          ∧ Heritage.report_category h = None)
  ∧ (∀ h, Heritage.heritage_category h = Heritage.Absent →
          Heritage.card_category h = Heritage.Text "Category undefined"
          ∧ Heritage.report_category h = None).
Proof.
  split; [reflexivity|].
  split.
  { intros h. unfold Heritage.card_title, Heritage.report_title.
    destruct (truthy_str (Heritage.site_name h)); [split; auto|].
    destruct (String.eqb_spec (Heritage.source h) "inventory") as [Hinv|Hinv],
             (String.eqb_spec (Heritage.source h) "nhra") as [Hnhra|Hnhra].
    + congruence.
    + split; auto.
    + split; auto.
    + split; [discriminate | intros [Hf|[Hf|Hf]]; [discriminate | contradiction..]]. }
  split.
  { intros h [c Hc].
    destruct (Heritage.city_grading h) as [g|] eqn:Hg;
      [|unfold Heritage.card_grading in Hc; rewrite Hg in Hc; discriminate].
    unfold Heritage.report_grading. rewrite Hg.
    destruct (card_grading_cases h g Hg)
      as [[Hsix _]|[[Hm _]|[[-> _]|(_ & _ & Hnone)]]].
    - cbn in Hsix. destruct Hsix as [<-|[<-|[<-|[<-|[<-|[<-|[]]]]]]]; cbn; eauto.
    - cbn in Hm.
      destruct Hm as [<-|[<-|[<-|[<-|[<-|[<-|[<-|[<-|[<-|[<-|[<-|[]]]]]]]]]]]];
        cbn; eauto.
    - cbn. eauto.
    - congruence. }
  split.
  { intros h. split.
    - intros [l Hl].
      destruct (Heritage.city_grading h) as [g|] eqn:Hg;
        [|unfold Heritage.card_grading in Hl; rewrite Hg in Hl; discriminate].
      exists g. split; [reflexivity|].
      destruct (card_grading_cases h g Hg)
        as [[Hsix _]|[[_ Hc]|[[_ Hc]|(_ & _ & Hc)]]]; [exact Hsix|congruence..].
    - intros (g & Hg & Hsix).
      destruct (card_grading_cases h g Hg)
        as [[_ (l & _ & Hc)]|[[Hm _]|[[-> _]|(Hno & _)]]].
      + eauto.
      + exfalso. cbn in Hsix, Hm.
        destruct Hm as [<-|[<-|[<-|[<-|[<-|[<-|[<-|[<-|[<-|[<-|[<-|[]]]]]]]]]]]];
          intuition discriminate.
      + exfalso. cbn in Hsix. intuition discriminate.
      + contradiction. }
  split.
  { intros h g Hg Hproto.
    unfold Object_prototype in Hproto. apply in_app_iff in Hproto.
    destruct Hproto as [Hm|[<-|[]]].
    - unfold Heritage.report_grading, Heritage.card_grading. rewrite Hg. cbn in Hm.
      destruct Hm as [<-|[<-|[<-|[<-|[<-|[<-|[<-|[<-|[<-|[<-|[<-|[]]]]]]]]]]]];
        split; reflexivity.
    - unfold Heritage.report_grading, Heritage.card_grading. rewrite Hg.
      split; reflexivity. }
  split.
  { intros h. destruct (Heritage.city_grading h) as [g|] eqn:Hg.
    2: { unfold Heritage.card_grading. rewrite Hg. split; auto. }
    destruct (card_grading_cases h g Hg)
      as [[Hsix (l & _ & Hc)]|[[Hm Hc]|[[-> Hc]|(Hno & Hproto & Hc)]]].
    - split; [congruence|]. intros [[=]|(g' & [= <-] & Hno & _)]. contradiction.
    - split; [congruence|]. intros [[=]|(g' & [= <-] & _ & Hproto)].
      destruct Hproto. unfold Object_prototype. apply in_app_iff. left. exact Hm.
    - split; [congruence|]. intros [[=]|(g' & [= <-] & _ & Hproto)].
      destruct Hproto. unfold Object_prototype. apply in_app_iff. right. left. reflexivity.
    - split; [|intros _; exact Hc]. intros _. right. exists g. auto. }
  split.
  { intros h n Hn _. unfold Heritage.report_category, Heritage.card_category.
    rewrite Hn. cbn [Heritage.category_text]. split; [reflexivity|].
    rewrite category_lookup.
    destruct (decide (0 <= n <= 5)%Z) as [Hin|Hout].
    - destruct (category_key_in_range n Hin) as [->|[->|[->|[->|[->| ->]]]]];
        eexists; split; reflexivity.
    - rewrite (category_key_out_of_range n Hout). reflexivity. }
  split.
  - intros h Hn. unfold Heritage.report_category, Heritage.card_category.
    rewrite Hn. split; reflexivity.
  - intros h Hn. unfold Heritage.report_category, Heritage.card_category.
    rewrite Hn. split; reflexivity.
Qed.

Lemma heritage_views_agree_witness :
  Heritage.card_title sample_graded_site = Heritage.report_title sample_graded_site
  ∧ is_Some (Heritage.report_grading sample_graded_site)
  ∧ Heritage.report_grading sample_stray_site = Some "City Grading: constructor"
  ∧ Heritage.card_grading sample_stray_site = Some Heritage.NoText
  ∧ Heritage.card_category sample_stray_site = Heritage.Text "Category 7".
Proof.
  destruct heritage_views_agree
    as (_ & Htitle & Hreport & Hcard & Hproto & _ & Hnumber & _).
  split; [|split; [|split; [|split]]].
  - apply Htitle. right. right. reflexivity.
  - apply Hreport. destruct (proj2 (Hcard sample_graded_site)) as [l Hl].
    + exists "IIIA". split; [reflexivity|]. cbn. auto 10.
    + rewrite Hl. eauto.
  - apply (Hproto sample_stray_site "constructor"); [reflexivity|]. cbn. auto.
  - apply (Hproto sample_stray_site "constructor"); [reflexivity|]. cbn. auto.
  - apply (Hnumber sample_stray_site 7%Z); [reflexivity | lia].
Defined.

(** ** The verdict under a gauge *)

Lemma ScoreGauge_pct_mono max s1 s2 :
  (s1 <= s2)%Q → (ScoreGauge_pct s1 max <= ScoreGauge_pct s2 max)%Q.
Proof.
  intros Hle. unfold ScoreGauge_pct.
  destruct (Qlt_le_dec 0 max) as [Hmax|_]; [|apply Qle_refl].
  apply Q.min_le_compat_r.
  assert (Hinv : (0 < / max)%Q) by (apply Qinv_lt_0_compat; exact Hmax).
  unfold Qdiv. apply Qmult_le_compat_r; [|discriminate].
  apply Qmult_le_compat_r; [exact Hle | apply Qlt_le_weak; exact Hinv].
Qed.

Lemma ScoreGauge_rating_mono p1 p2 :
  (p1 <= p2)%Q →
  (rating_rank (ScoreGauge_rating p1) <= rating_rank (ScoreGauge_rating p2))%nat.
Proof.
  intros Hle. unfold ScoreGauge_rating.
  destruct (Qle_bool 80 p1) eqn:H801, (Qle_bool 80 p2) eqn:H802,
           (Qle_bool 60 p1) eqn:H601, (Qle_bool 60 p2) eqn:H602,
           (Qle_bool 40 p1) eqn:H401, (Qle_bool 40 p2) eqn:H402;
    cbn; try lia;
    repeat match goal with
           | H : Qle_bool _ _ = true |- _ => apply Qle_bool_iff in H
           | H : Qle_bool ?a ?b = false |- _ =>
             assert (b < a)%Q
               by (apply Qnot_le_lt; intros Hc; apply Qle_bool_iff in Hc; congruence);
             clear H
           end; lra.
Qed.

Lemma ScoreGauge_rating_low p : (p < 40)%Q → ScoreGauge_rating p = "Low".
Proof.
  intros Hp. unfold ScoreGauge_rating.
  rewrite !Qle_bool_false; [reflexivity | lra..].
Qed.

(** X11: the verdict under a gauge follows the score.  For a fixed
    category maximum a larger score never gets a lower verdict (Low,
    Fair, Good, Excellent in that order); with a positive maximum a
    score at or above it reads 'Excellent' and a score of zero or less
    reads 'Low'; a maximum of zero or less reads 'Low' for every
    score. *)
Theorem gauge_verdict_follows_score :
  (∀ max s1 s2,
     (s1 <= s2)%Q →
     (rating_rank (ScoreGauge_verdict s1 max) <= rating_rank (ScoreGauge_verdict s2 max))%nat)
  ∧ (∀ score max, (0 < max)%Q → (max <= score)%Q →
                  ScoreGauge_verdict score max = "Excellent")
  ∧ (∀ score max, (0 < max)%Q → (score <= 0)%Q → ScoreGauge_verdict score max = "Low")
  ∧ (∀ score max, (max <= 0)%Q → ScoreGauge_verdict score max = "Low")
  ∧ (∀ score max, In (ScoreGauge_verdict score max) ["Low"; "Fair"; "Good"; "Excellent"]).
Proof.
  split; [|split; [|split; [|split]]].
  - intros max s1 s2 Hle. apply ScoreGauge_rating_mono, ScoreGauge_pct_mono, Hle.
  - intros score max Hmax Hle. unfold ScoreGauge_verdict, ScoreGauge_rating.
    assert (Hfull : (ScoreGauge_pct score max == 100)%Q).
    { rewrite (ScoreGauge_pct_pos score max Hmax). apply Q.min_r, ratio_ge_1; assumption. }
    assert (H80 : Qle_bool 80 (ScoreGauge_pct score max) = true).
    { apply Qle_bool_iff. rewrite Hfull. discriminate. }
    rewrite H80. reflexivity.
  - intros score max Hmax Hle. unfold ScoreGauge_verdict.
    apply ScoreGauge_rating_low. rewrite (ScoreGauge_pct_pos score max Hmax).
    assert (Hneg : (score / max * 100 <= 0)%Q).
    { assert (Hinv : (0 < / max)%Q) by (apply Qinv_lt_0_compat; exact Hmax).
      unfold Qdiv. nra. }
    eapply Qle_lt_trans; [apply Q.le_min_l|]. lra.
  - intros score max Hmax. unfold ScoreGauge_verdict, ScoreGauge_pct.
    destruct (Qlt_le_dec 0 max) as [Hpos|_]; [lra|]. reflexivity.
  - intros score max. unfold ScoreGauge_verdict, ScoreGauge_rating.
    repeat match goal with
           | |- context [Qle_bool ?a ?b] => destruct (Qle_bool a b)
           end; cbn; auto 6.
Qed.

Lemma gauge_verdict_follows_score_witness :
  ScoreGauge_verdict 36 35 = "Excellent"
  ∧ ScoreGauge_verdict 7 0 = "Low"
  ∧ (rating_rank (ScoreGauge_verdict 10 25) <= rating_rank (ScoreGauge_verdict 21 25))%nat.
Proof.
  destruct gauge_verdict_follows_score as (Hmono & Hfull & _ & Hzero & _).
  split; [apply Hfull; [reflexivity | discriminate]|].
  split; [apply Hzero; discriminate|].
  apply Hmono. discriminate.
Defined.

(** ** Colours of the designations *)

Lemma CBA_COLORS_complete cat :
  match js_get CBA_COLORS cat with
  | Some c => In cat (keys CBA_COLORS) ∧ fill c ≠ "" ∧ label c ≠ "" ∧ In (cat, fill c) legend
  | None => ¬ In cat (keys CBA_COLORS)
  end.
Proof.
  cbn -[String.eqb].
  repeat match goal with
         | |- context [String.eqb ?a cat] =>
           destruct (String.eqb_spec a cat);
             [subst; cbn; repeat split; try discriminate; auto 12|]
         end.
  cbn. intuition congruence.
Qed.

(** X12: one colour per designation.  For every category value the
    sidebar swatch and the report swatch have the same colour and the
    map tooltip reads like the sidebar row.  A category of the schema's
    enum takes fill, outline and label from [CBA_COLORS] in all views
    and appears in the legend; a value that is neither in the enum nor
    a name of [Object.prototype] is drawn in the grey '#9ca3af' on the
    map and in both swatches and is named by its raw value.  For a name
    of [Object.prototype] (for instance 'constructor') the views differ:
    the swatches are grey, while the map polygon gets no fill colour
    and no outline colour at all. *)
Theorem designation_colours_agree :
  (∀ cat, sidebar_swatch cat = report_swatch cat
          ∧ InteractiveMap.bio_tooltip cat = sidebar_overlay_text cat)
  ∧ (∀ cat, ¬ In cat Object_prototype →
            InteractiveMap.fillColor (InteractiveMap.bioStyle cat)
            = Some (sidebar_swatch cat))
  ∧ (∀ cat, In cat cba_category_enum →
            ∃ c, js_get CBA_COLORS cat = Some c
                 ∧ InteractiveMap.fillColor (InteractiveMap.bioStyle cat) = Some (fill c)
                 ∧ InteractiveMap.color (InteractiveMap.bioStyle cat) = Some (stroke c)
                 ∧ sidebar_swatch cat = fill c
                 ∧ InteractiveMap.bio_tooltip cat = label c
                 ∧ In (cat, fill c) legend)
  ∧ (∀ cat, ¬ In cat cba_category_enum → ¬ In cat Object_prototype →
            InteractiveMap.fillColor (InteractiveMap.bioStyle cat) = Some "#9ca3af"
            ∧ InteractiveMap.color (InteractiveMap.bioStyle cat) = Some "#6b7280"
            ∧ sidebar_swatch cat = "#9ca3af"
            ∧ InteractiveMap.bio_tooltip cat = cat)
  ∧ (∀ cat, In cat Object_prototype →
            InteractiveMap.fillColor (InteractiveMap.bioStyle cat) = None
            ∧ InteractiveMap.color (InteractiveMap.bioStyle cat) = None
            ∧ sidebar_swatch cat = "#9ca3af"
            ∧ report_swatch cat = "#9ca3af"
            ∧ InteractiveMap.bio_tooltip cat = cat).
Proof.
  assert (Hown : ∀ cat c, js_get CBA_COLORS cat = Some c →
                          js_index CBA_COLORS cat = Own c
                          ∧ String.eqb (fill c) "" = false
                          ∧ String.eqb (label c) "" = false
                          ∧ In (cat, fill c) legend).
  { intros cat c Hget. pose proof (CBA_COLORS_complete cat) as Hc.
    rewrite Hget in Hc. destruct Hc as (_ & Hfill & Hlabel & Hlegend).
    apply String.eqb_neq in Hfill, Hlabel.
    split; [apply js_index_own; exact Hget | auto]. }
  assert (Hother : ∀ cat, ¬ In cat cba_category_enum → ¬ In cat Object_prototype →
                          js_index CBA_COLORS cat = Undefined).
  { intros cat Hout Hproto. apply js_index_undefined. split; [|exact Hproto].
    pose proof (CBA_COLORS_complete cat) as Hc.
    destruct (js_get CBA_COLORS cat) as [c|]; [|reflexivity].
    destruct Hc as (Hin & _). contradiction. }
  split; [|split; [|split; [|split]]].
  - intros cat. split; reflexivity.
  - intros cat Hproto.
    unfold InteractiveMap.bioStyle, sidebar_swatch.
    destruct (js_get CBA_COLORS cat) as [c|] eqn:Hget.
    + destruct (Hown cat c Hget) as (-> & -> & _). reflexivity.
    + rewrite Hother; [reflexivity| |exact Hproto].
      pose proof (CBA_COLORS_complete cat) as Hc. rewrite Hget in Hc. exact Hc.
  - intros cat Hin. pose proof (CBA_COLORS_complete cat) as Hc.
    destruct (js_get CBA_COLORS cat) as [c|] eqn:Hget; [|contradiction].
    destruct (Hown cat c Hget) as (Hidx & Hfill & Hlabel & Hlegend).
    unfold InteractiveMap.bioStyle, InteractiveMap.bio_tooltip, sidebar_swatch.
    rewrite Hidx, Hfill, Hlabel. exists c. auto 7.
  - intros cat Hout Hproto.
    unfold InteractiveMap.bioStyle, InteractiveMap.bio_tooltip, sidebar_swatch.
    rewrite (Hother cat Hout Hproto). auto.
  - intros cat Hproto. unfold Object_prototype, Object_prototype_methods in Hproto.
    cbn in Hproto.
    destruct Hproto
      as [<-|[<-|[<-|[<-|[<-|[<-|[<-|[<-|[<-|[<-|[<-|[<-|[]]]]]]]]]]]]];
      repeat split; reflexivity.
Qed.

Lemma designation_colours_agree_witness :
  InteractiveMap.fillColor (InteractiveMap.bioStyle "CBA 1a") = Some "#ef4444"
  ∧ InteractiveMap.fillColor (InteractiveMap.bioStyle "Unknown") = Some "#9ca3af"
  ∧ InteractiveMap.fillColor (InteractiveMap.bioStyle "constructor") = None
  ∧ sidebar_swatch "constructor" = "#9ca3af".
Proof.
  destruct designation_colours_agree as (_ & _ & Hknown & Hother & Hproto).
  split; [|split; [|split]].
  - destruct (Hknown "CBA 1a") as (c & Hc & Hfill & _); [cbn; auto|].
    rewrite Hfill. cbn in Hc. injection Hc as <-. reflexivity.
  - apply Hother; cbn; intuition discriminate.
  - apply (Hproto "constructor"). cbn. auto.
  - apply (Hproto "constructor"). cbn. auto.
Defined.

(** ** The net-zero ratio row *)

Lemma Qfloor_lower z x : (inject_Z z <= x)%Q → (z <= Qfloor x)%Z.
Proof. intros Hle. rewrite <- (Qfloor_Z z). apply Qfloor_resp_le. exact Hle. Qed.

(** X13: the note under the net-zero ratio.  When the sidebar prints
    'Net Zero feasible' the rounded percentage next to it is at least
    100, and a percentage below 100 always comes with 'Below target';
    the converse fails: a ratio from 0.996 up to, but not including, 1
    is printed as 100% with 'Below target'. *)
Theorem netzero_note_and_percent :
  (∀ r, (1 <= r)%Q →
        netzero_ratio_note r = "Net Zero feasible" ∧ (100 <= netzero_ratio_percent r)%Z)
  ∧ (∀ r, (netzero_ratio_percent r < 100)%Z → netzero_ratio_note r = "Below target")
  ∧ (∀ r, (996 # 1000 <= r)%Q → (r < 1)%Q →
          netzero_ratio_percent r = 100%Z ∧ netzero_ratio_note r = "Below target").
Proof.
  assert (Hfeasible : ∀ r, (1 <= r)%Q → (100 <= netzero_ratio_percent r)%Z).
  { intros r Hr. unfold netzero_ratio_percent, Math_round.
    apply Qfloor_lower. change (inject_Z 100) with 100%Q. lra. }
  split; [|split].
  - intros r Hr. split; [|apply Hfeasible; exact Hr].
    unfold netzero_ratio_note. apply Qle_bool_iff in Hr. rewrite Hr. reflexivity.
  - intros r Hlow. unfold netzero_ratio_note.
    destruct (Qle_bool 1 r) eqn:Hr; [|reflexivity].
    apply Qle_bool_iff, Hfeasible in Hr. lia.
  - intros r Hlo Hhi. split.
    + unfold netzero_ratio_percent, Math_round.
      assert (Hge : (100 <= Qfloor (r * 100 + (1 # 2)))%Z).
      { apply Qfloor_lower. change (inject_Z 100) with 100%Q. lra. }
      assert (Hlt : (Qfloor (r * 100 + (1 # 2)) < 101)%Z).
      { rewrite Zlt_Qlt. eapply Qle_lt_trans; [apply Qfloor_le|].
        change (inject_Z 101) with 101%Q. lra. }
      lia.
    + unfold netzero_ratio_note. rewrite Qle_bool_false; [reflexivity | exact Hhi].
Qed.

Lemma netzero_note_and_percent_witness :
  netzero_ratio_percent (999 # 1000) = 100%Z
  ∧ netzero_ratio_note (999 # 1000) = "Below target"
  ∧ netzero_ratio_note (12 # 10) = "Net Zero feasible".
Proof.
  destruct netzero_note_and_percent as (Hfeasible & _ & Hedge).
  destruct (Hedge (999 # 1000)%Q) as [Hpct Hnote]; [discriminate | reflexivity|].
  split; [exact Hpct|]. split; [exact Hnote|].
  apply Hfeasible. discriminate.
Defined.

(** * Further properties of the scripts *)

(** ** [db_migrate.sh] *)

Section Migration.
Import DbMigrate.

Lemma until_failure_subset fails cs c :
  In c (fst (until_failure fails cs)) → In c cs.
Proof.
  induction cs as [|c' rest IH]; cbn; [auto|].
  destruct (fails c'); cbn; [intros [<-|[]]; left; reflexivity|].
  destruct (until_failure fails rest) as [done failed]. cbn in *.
  intros [<-|Hin]; [left; reflexivity | right; apply IH; exact Hin].
Qed.

Lemma main_issued_subset fails name arguments env date du c :
  In c (issued (main fails name arguments env date du)) →
  In c (issued (script name arguments env date du)).
Proof.
  unfold main. intros Hin. apply (until_failure_subset fails).
  destruct (until_failure fails _) as [done failed]. exact Hin.
Qed.

Lemma subcommand_named arguments name :
  name ≠ "help" → or_default (head arguments) "help" = name →
  head arguments = Some name.
Proof.
  unfold or_default. destruct (head arguments) as [s|]; [|congruence].
  destruct (String.eqb s ""); congruence.
Qed.

(** X14: what the migration script runs.  The restore ([gunzip | psql])
    is run only for 'import', only with a non-empty file argument and a
    non-empty [DATABASE_URL], and against exactly that URL; the dump is
    run only for 'export', with the [PG*] settings or their defaults;
    an import that lacks the file or the URL runs nothing at all; any
    other first word, none included, only prints the usage line and
    exits with 1, touching no database. *)
Theorem migration_commands_guarded :
  (∀ fails name arguments env date du file url,
     In (gunzip_psql file url) (issued (main fails name arguments env date du)) →
     head arguments = Some "import"
     ∧ required (arguments !! 1%nat) = Some file
     ∧ required (DATABASE_URL env) = Some url)
  ∧ (∀ fails name arguments env date du host port user db file,
       In (pg_dump_gzip host port user db file)
          (issued (main fails name arguments env date du)) →
       head arguments = Some "export"
       ∧ host = or_default (PGHOST env) "localhost"
       ∧ port = or_default (PGPORT env) "5432"
       ∧ user = or_default (PGUSER env) "capeeco_user"
       ∧ db = or_default (PGDATABASE env) "capeeco")
  ∧ (∀ fails name arguments env date du,
       head arguments = Some "import" →
       required (arguments !! 1%nat) = None ∨ required (DATABASE_URL env) = None →
       main fails name arguments env date du = {| issued := []; ended := aborted |})
  ∧ (∀ fails name arguments env date du,
       ¬ In (or_default (head arguments) "help") ["export"; "import"; "alembic"; "rollback"] →
       (∀ c, In c (issued (main fails name arguments env date du)) →
             touches_database c = false)
       ∧ ended (script name arguments env date du) = exit 1
       ∧ ended (main fails name arguments env date du) ≠ exit 0).
Proof.
  split; [|split; [|split]].
  - intros fails name arguments env date du file url Hin.
    apply main_issued_subset in Hin. revert Hin. unfold script. cbn zeta.
    destruct (String.eqb_spec (or_default (head arguments) "help") "export") as [_|_].
    { cbn. intuition discriminate. }
    destruct (String.eqb_spec (or_default (head arguments) "help") "import") as [Himp|_].
    2: { repeat (destruct (String.eqb _ _)); cbn; intuition discriminate. }
    apply subcommand_named in Himp; [|discriminate].
    destruct (required (arguments !! 1%nat)) as [FILE|]; [|intros []].
    destruct (required (DATABASE_URL env)) as [URL|]; [|intros []].
    cbn. intros [Hc|[Hc|[Hc|[]]]]; try discriminate. injection Hc as <- <-. auto.
  - intros fails name arguments env date du host port user db file Hin.
    apply main_issued_subset in Hin. revert Hin. unfold script. cbn zeta.
    destruct (String.eqb_spec (or_default (head arguments) "help") "export") as [Hexp|_].
    { apply subcommand_named in Hexp; [|discriminate].
      cbn. intros [Hc|[Hc|[Hc|[Hc|[]]]]]; try discriminate.
      injection Hc as <- <- <- <- _. auto. }
    destruct (String.eqb (or_default (head arguments) "help") "import").
    { destruct (required (arguments !! 1%nat)); [|intros []].
      destruct (required (DATABASE_URL env)); [|intros []].
      cbn. intuition discriminate. }
    repeat (destruct (String.eqb _ _)); cbn; intuition discriminate.
  - intros fails name arguments env date du Himp Hmissing.
    unfold main, script. cbn zeta. unfold or_default at 5 6. rewrite Himp. cbn.
    destruct Hmissing as [Hfile|Hurl].
    + rewrite Hfile. reflexivity.
    + rewrite Hurl. destruct (required (arguments !! 1%nat)); reflexivity.
  - intros fails name arguments env date du Hother.
    assert (Hscript : script name arguments env date du
                      = {| issued := [ echo (concat_all
                                               ["Usage: "; name;
                                                " {export|import <file>|alembic|rollback}"]) ];
                           ended := exit 1 |}).
    { unfold script. cbn zeta.
      destruct (String.eqb_spec (or_default (head arguments) "help") "export") as [He|_];
        [destruct Hother; rewrite He; cbn; auto|].
      destruct (String.eqb_spec (or_default (head arguments) "help") "import") as [He|_];
        [destruct Hother; rewrite He; cbn; auto|].
      destruct (String.eqb_spec (or_default (head arguments) "help") "alembic") as [He|_];
        [destruct Hother; rewrite He; cbn; auto|].
      destruct (String.eqb_spec (or_default (head arguments) "help") "rollback") as [He|_];
        [destruct Hother; rewrite He; cbn; auto 6|].
      reflexivity. }
    split; [|split].
    + intros c Hin. apply main_issued_subset in Hin. rewrite Hscript in Hin.
      destruct Hin as [<-|[]]. reflexivity.
    + rewrite Hscript. reflexivity.
    + unfold main. rewrite Hscript. cbn.
      destruct (fails _); cbn; discriminate.
Qed.
End Migration.

Lemma migration_commands_guarded_witness :
  DbMigrate.main (fun _ => false) "./scripts/db_migrate.sh" ["import"]
    {| DbMigrate.PGHOST := None; DbMigrate.PGPORT := None; DbMigrate.PGUSER := None;
       DbMigrate.PGDATABASE := None;
       DbMigrate.DATABASE_URL := Some "postgresql://capeeco@db/capeeco" |}
    "20260130_101500" "12M"
  = {| DbMigrate.issued := []; DbMigrate.ended := DbMigrate.aborted |}
  ∧ DbMigrate.ended
      (DbMigrate.script "./scripts/db_migrate.sh" []
         {| DbMigrate.PGHOST := None; DbMigrate.PGPORT := None; DbMigrate.PGUSER := None;
            DbMigrate.PGDATABASE := None; DbMigrate.DATABASE_URL := None |}
         "20260130_101500" "12M")
    = DbMigrate.exit 1.
Proof.
  destruct migration_commands_guarded as (_ & _ & Hmissing & Hother).
  split.
  - apply Hmissing; [reflexivity | left; reflexivity].
  - apply (Hother (fun _ => false)). cbn. intuition discriminate.
Defined.

(** ** Identifiers of staged rows *)

Lemma advance_lookup seqs rel r s :
  advance seqs rel r !! s
  = if draws_from rel r s then Some (next_value seqs s) else seqs !! s.
Proof.
  unfold advance, draws_from.
  induction (rel_columns rel) as [|c cols IH]; [reflexivity|]. cbn.
  destruct (r !! col_name c) as [v|]; [exact IH|].
  destruct (col_default c) as [[s'| |b]|]; try exact IH.
  destruct (String.eqb_spec s' s) as [->|Hne]; cbn.
  - rewrite lookup_insert_eq. reflexivity.
  - rewrite lookup_insert_ne by exact Hne. exact IH.
Qed.

Lemma id_sequence_draws rel r s :
  id_sequence rel = Some s → r !! "id" = None →
  draws_from rel r s = true
  ∧ ∀ seqs, field (complete seqs rel r) "id" = INT (next_value seqs s).
Proof.
  unfold id_sequence. intros Hseq Hid.
  destruct (column_named rel "id") as [c|] eqn:Hc; [|discriminate].
  destruct (col_default c) as [[s'| |b]|] eqn:Hdef; try discriminate.
  injection Hseq as ->. split.
  - unfold column_named in Hc. apply find_some in Hc as [Hin Hname].
    apply String.eqb_eq in Hname.
    unfold draws_from. apply existsb_exists. exists c. split; [exact Hin|].
    rewrite Hname, Hid, Hdef. apply String.eqb_refl.
  - intros seqs. rewrite complete_field, Hc. unfold value_in.
    unfold column_named in Hc. apply find_some in Hc as [_ Hname].
    apply String.eqb_eq in Hname. rewrite Hname, Hid, Hdef. reflexivity.
Qed.

Lemma insert_row_sequences db table r db' :
  insert_row db table r = inr db' →
  ∃ rel,
    relations (db_catalog db) !! table = Some rel
    ∧ db_catalog db' = db_catalog db
    ∧ rows_of db' table = complete (db_sequences db) rel r :: rows_of db table
    ∧ db_sequences db' = advance (db_sequences db) rel r.
Proof.
  unfold insert_row.
  destruct (relations (db_catalog db) !! table) as [rel|]; [|discriminate].
  destruct (undefined_column rel r); [discriminate|].
  destruct (null_violation _ rel r); [discriminate|].
  destruct (unique_violation rel _ _); [discriminate|].
  destruct (foreign_key_violation db rel _); [discriminate|].
  intros [= <-]. exists rel.
  split; [reflexivity|]. split; [reflexivity|]. split; [|reflexivity].
  unfold rows_of at 1. cbn [db_rows]. rewrite lookup_insert_eq. reflexivity.
Qed.

Lemma staging_id_sequence staging production :
  In (staging, production) staging_tables →
  ∃ rs rp,
    relations schema_catalog !! staging = Some rs
    ∧ relations schema_catalog !! production = Some rp
    ∧ id_sequence rs = Some (seq_name production "id")
    ∧ id_sequence rp = Some (seq_name production "id").
Proof.
  intros Hin. cbn in Hin.
  repeat (destruct Hin as [[= <- <-]|Hin];
          [do 2 eexists; split; [vm_compute; reflexivity|];
           split; [vm_compute; reflexivity|]; split; reflexivity|]).
  destruct Hin.
Qed.

(** X15: staged rows take their identifiers from the production
    sequence.  [LIKE ... INCLUDING ALL] copies the default of [id], so
    the [id] of each staging relation defaults to the next value of the
    sequence owned by the production relation, not to one of its own.
    A row staged without an [id] therefore uses up a production
    identifier: if it receives [n], the next row loaded into the
    production relation without an [id] receives [n + 1]. *)
Theorem staged_ids_use_production_sequence staging production db r db' r2 db'' :
  In (staging, production) staging_tables →
  db_catalog db = schema_catalog →
  r !! "id" = None → insert_row db staging r = inr db' →
  r2 !! "id" = None → insert_row db' production r2 = inr db'' →
  ∃ staged loaded,
    rows_of db' staging = staged :: rows_of db staging
    ∧ rows_of db'' production = loaded :: rows_of db' production
    ∧ field staged "id"
      = INT (next_value (db_sequences db) (seq_name production "id"))
    ∧ field loaded "id"
      = INT (next_value (db_sequences db) (seq_name production "id") + 1).
Proof.
  intros Hin Hcat Hid Hstage Hid2 Hload.
  destruct (staging_id_sequence _ _ Hin) as (rs & rp & Hrs & Hrp & Hseq_s & Hseq_p).
  apply insert_row_sequences in Hstage as (rel & Hrel & Hcat' & Hrows & Hseqs).
  rewrite Hcat, Hrs in Hrel. injection Hrel as <-.
  apply insert_row_sequences in Hload as (rel2 & Hrel2 & _ & Hrows2 & _).
  rewrite Hcat', Hcat, Hrp in Hrel2. injection Hrel2 as <-.
  destruct (id_sequence_draws _ _ _ Hseq_s Hid) as [Hdraw Hfield].
  destruct (id_sequence_draws _ _ _ Hseq_p Hid2) as [_ Hfield2].
  exists (complete (db_sequences db) rs r), (complete (db_sequences db') rp r2).
  split; [exact Hrows|]. split; [exact Hrows2|]. split; [apply Hfield|].
  rewrite Hfield2. f_equal. unfold next_value at 1.
  rewrite Hseqs, advance_lookup, Hdraw. reflexivity.
Qed.

Lemma staged_ids_use_production_sequence_witness :
  ∃ db' db'' staged loaded,
    insert_row initial_db "staging_properties" sample_property_row = inr db'
    ∧ insert_row db' "properties" sample_property_row = inr db''
    ∧ rows_of db' "staging_properties" = staged :: rows_of initial_db "staging_properties"
    ∧ rows_of db'' "properties" = loaded :: rows_of db' "properties"
    ∧ field staged "id" = INT 1
    ∧ field loaded "id" = INT 2.
Proof.
  assert (Hin : In ("staging_properties", "properties") staging_tables)
    by (cbn; left; reflexivity).
  assert (Hok : error_of (db' ← insert_row initial_db "staging_properties" sample_property_row;
                          insert_row db' "properties" sample_property_row) = None)
    by (vm_compute; reflexivity).
  destruct (insert_row initial_db "staging_properties" sample_property_row)
    as [e|db'] eqn:Hstage; [discriminate Hok|].
  change (error_of (insert_row db' "properties" sample_property_row) = None) in Hok.
  destruct (insert_row db' "properties" sample_property_row)
    as [e|db''] eqn:Hload; [discriminate Hok|].
  destruct (staged_ids_use_production_sequence
              "staging_properties" "properties" initial_db sample_property_row db'
              sample_property_row db'' Hin eq_refl eq_refl Hstage eq_refl Hload)
    as (staged & loaded & Hrows & Hrows2 & Hid & Hid2).
  exists db', db'', staged, loaded.
  split; [reflexivity|]. split; [exact Hload|].
  split; [exact Hrows|]. split; [exact Hrows2|].
  split; [exact Hid | exact Hid2].
Defined.
